(** * Web Image Collector: the scan / select / save pipeline

    A shallow embedding of [src/main.py] (class [ImageScraperApp]) together
    with the parts of the Python standard library its behaviour rests on
    ([str] methods, [os.path] in its POSIX flavour and [urllib.parse] as of
    CPython 3.11), followed by the properties of the pipeline.

    Conventions.
    - A Python [str] is a [string]; its characters are the code points below
      256.  [bytes] values are [list byte].
    - [str.find] and [str.rfind] return a [Z], [-1] when nothing is found, as
      in Python.
    - A set of file names is a [gset string]; a tag's attribute dictionary is
      a [gmap string string].
    - Everything outside the process (network, image decoder, file system) is
      an [Env]: a type of worlds and the operations on it.  A command of the
      application is a function from a [State] (application fields, world,
      trace of the external calls made so far) to an outcome and a [State]. *)

From stdpp Require Import gmap strings list pretty.
From Stdlib Require Import Strings.Ascii Strings.String Strings.Byte ZArith.

Local Open Scope string_scope.
Local Open Scope Z_scope.
Local Open Scope list_scope.

(** ** Python [str] methods *)

Module Str.

(** [s[:n]] for [0 <= n]. *)
Fixpoint take (n : nat) (s : string) : string :=
  match n, s with
  | S n', String c s' => String c (take n' s')
  | _, _ => EmptyString
  end.

(** [s[n:]] for [0 <= n]. *)
Fixpoint drop (n : nat) (s : string) : string :=
  match n, s with
  | S n', String _ s' => drop n' s'
  | _, _ => s
  end.

(** [s[i:j]] for [0 <= i], [0 <= j]. *)
Definition slice (i j : nat) (s : string) : string :=
  take (j - i)%nat (drop i s).

Fixpoint find_opt (c : ascii) (s : string) : option nat :=
  match s with
  | EmptyString => None
  | String a s' => if decide (a = c) then Some 0%nat else S <$> find_opt c s'
  end.

Fixpoint rfind_opt (c : ascii) (s : string) : option nat :=
  match s with
  | EmptyString => None
  | String a s' =>
      match rfind_opt c s' with
      | Some i => Some (S i)
      | None => if decide (a = c) then Some 0%nat else None
      end
  end.

Definition index_or_minus1 (o : option nat) : Z :=
  match o with Some i => Z.of_nat i | None => -1 end.

(** [s.find(c)] *)
Definition find (c : ascii) (s : string) : Z :=
  index_or_minus1 (find_opt c s).

(** [s.find(c, start)] for [0 <= start]. *)
Definition find_from (c : ascii) (start : nat) (s : string) : Z :=
  index_or_minus1 ((λ i, (start + i)%nat) <$> find_opt c (drop start s)).

(** [s.rfind(c)] *)
Definition rfind (c : ascii) (s : string) : Z :=
  index_or_minus1 (rfind_opt c s).

(** [c in s] *)
Definition contains (c : ascii) (s : string) : bool :=
  bool_decide (is_Some (find_opt c s)).

(** [s.replace(c, "")] *)
Fixpoint remove (c : ascii) (s : string) : string :=
  match s with
  | EmptyString => EmptyString
  | String a s' => if decide (a = c) then remove c s' else String a (remove c s')
  end.

(** [s.split(c)]; the result is never the empty list. *)
Fixpoint split (c : ascii) (s : string) : list string :=
  match s with
  | EmptyString => [""]
  | String a s' =>
      if decide (a = c) then "" :: split c s'
      else match split c s' with
           | w :: ws => String a w :: ws
           | [] => [String a ""]
           end
  end.

(** [s.split(c, 1)] when [c in s]: the text before and after the first [c]. *)
Definition split1 (c : ascii) (s : string) : string * string :=
  let i := Z.to_nat (find c s) in (take i s, drop (S i) s).

(** [sep.join(l)] *)
Definition join (sep : string) (l : list string) : string := String.concat sep l.

Fixpoint lstrip (P : ascii → bool) (s : string) : string :=
  match s with
  | EmptyString => EmptyString
  | String a s' => if P a then lstrip P s' else s
  end.

Fixpoint rstrip (P : ascii → bool) (s : string) : string :=
  match s with
  | EmptyString => EmptyString
  | String a s' =>
      match rstrip P s' with
      | EmptyString => if P a then EmptyString else String a EmptyString
      | r => String a r
      end
  end.

(** [s.strip(chars)], the characters to strip given as a predicate. *)
Definition strip_chars (P : ascii → bool) (s : string) : string :=
  lstrip P (rstrip P s).

(** [c.isspace()] on the code points below 256. *)
Definition isspace (a : ascii) : bool :=
  let n := nat_of_ascii a in
  ((9 <=? n) && (n <=? 13) || (28 <=? n) && (n <=? 32)
   || (n =? 133) || (n =? 160))%nat.

(** [s.strip()] *)
Definition strip (s : string) : string := strip_chars isspace s.

(** [s.startswith(p)] *)
Definition startswith (p s : string) : bool := String.prefix p s.

(** [s.endswith(p)] *)
Definition endswith (p s : string) : bool :=
  (String.length p <=? String.length s)%nat
  && String.eqb (drop (String.length s - String.length p) s) p.

Definition is_ascii_upper (a : ascii) : bool :=
  let n := nat_of_ascii a in ((65 <=? n) && (n <=? 90))%nat.

Definition is_ascii_lower (a : ascii) : bool :=
  let n := nat_of_ascii a in ((97 <=? n) && (n <=? 122))%nat.

(** [c.isascii() and c.isalpha()] *)
Definition is_ascii_alpha (a : ascii) : bool :=
  is_ascii_upper a || is_ascii_lower a.

Definition lower_char (a : ascii) : ascii :=
  if is_ascii_upper a then ascii_of_nat (nat_of_ascii a + 32) else a.

(** [s.lower()] for a string of ASCII characters. *)
Fixpoint lower (s : string) : string :=
  match s with
  | EmptyString => EmptyString
  | String a s' => String (lower_char a) (lower s')
  end.

Fixpoint forallb (P : ascii → bool) (s : string) : bool :=
  match s with
  | EmptyString => true
  | String a s' => P a && forallb P s'
  end.

(** Python truthiness of a string: [bool(s)]. *)
Definition nonempty (s : string) : bool :=
  match s with EmptyString => false | _ => true end.

End Str.

(** ** [os.path] (posixpath and genericpath) *)

Module genericpath.

(** The [while filenameIndex < dotIndex] loop of [_splitext], [n] being the
    number of iterations left; [true] when it hits the [return] inside. *)
Fixpoint skip_leading_dots (p : string) (extsep : ascii)
    (filenameIndex n : nat) : bool :=
  match n with
  | O => false
  | S n' =>
      if decide (Str.slice filenameIndex (S filenameIndex) p = String extsep "")
      then skip_leading_dots p extsep (S filenameIndex) n'
      else true
  end.

Definition _splitext (p : string) (sep : ascii) (altsep : option ascii)
    (extsep : ascii) : string * string :=
  let sepIndex := Str.rfind sep p in
  let sepIndex :=
    match altsep with
    | Some alt => Z.max sepIndex (Str.rfind alt p)
    | None => sepIndex
    end in
  let dotIndex := Str.rfind extsep p in
  if (sepIndex <? dotIndex)
     && skip_leading_dots p extsep (Z.to_nat (sepIndex + 1))
          (Z.to_nat (dotIndex - (sepIndex + 1)))
  then (Str.take (Z.to_nat dotIndex) p, Str.drop (Z.to_nat dotIndex) p)
  else (p, "").

End genericpath.

Module os_path.

Definition splitext (p : string) : string * string :=
  genericpath._splitext p "/"%char None "."%char.

Definition basename (p : string) : string :=
  let i := Str.rfind "/"%char p + 1 in
  Str.drop (Z.to_nat i) p.

(** [os.path.join(a, b)] *)
Definition join (a b : string) : string :=
  if Str.startswith "/" b then b
  else if negb (Str.nonempty a) || Str.endswith "/" a then a +:+ b
  else a +:+ "/" +:+ b.

End os_path.

(** ** Exceptions

    An exception is represented by its text, [str(e)], which is all the
    program ever uses of one. *)

Definition Exception : Type := string.

(** ** [urllib.parse] *)

Module urllib_parse.

Definition uses_relative : list string :=
  [""; "ftp"; "http"; "gopher"; "nntp"; "imap"; "wais"; "file"; "https";
   "shttp"; "mms"; "prospero"; "rtsp"; "rtspu"; "sftp"; "svn"; "svn+ssh";
   "ws"; "wss"].

Definition uses_netloc : list string :=
  [""; "ftp"; "http"; "gopher"; "nntp"; "telnet"; "imap"; "wais"; "file";
   "mms"; "https"; "shttp"; "snews"; "prospero"; "rtsp"; "rtspu"; "rsync";
   "svn"; "svn+ssh"; "sftp"; "nfs"; "git"; "git+ssh"; "ws"; "wss"].

Definition uses_params : list string :=
  [""; "ftp"; "hdl"; "prospero"; "http"; "imap"; "https"; "shttp"; "rtsp";
   "rtspu"; "sip"; "sips"; "mms"; "sftp"; "tel"].

Definition scheme_chars : string :=
  "abcdefghijklmnopqrstuvwxyzABCDEFGHIJKLMNOPQRSTUVWXYZ0123456789+-.".

(** Membership in [_WHATWG_C0_CONTROL_OR_SPACE], the code points 0 to 32. *)
Definition _WHATWG_C0_CONTROL_OR_SPACE (a : ascii) : bool :=
  (nat_of_ascii a <=? 32)%nat.

Definition _UNSAFE_URL_BYTES_TO_REMOVE : list ascii :=
  ["009"%char; "013"%char; "010"%char].

(** [x in l] for a list of scheme names. *)
Definition mem (x : string) (l : list string) : bool := bool_decide (x ∈ l).

(** [s.partition(c)]: text before the first [c], whether [c] occurs, text
    after it. *)
Definition partition (c : ascii) (s : string) : string * bool * string :=
  match Str.find_opt c s with
  | Some i => (Str.take i s, true, Str.drop (S i) s)
  | None => (s, false, "")
  end.

(** [s.rpartition(c)[2]] *)
Definition rpartition_tail (c : ascii) (s : string) : string :=
  match Str.rfind_opt c s with
  | Some i => Str.drop (S i) s
  | None => s
  end.

Definition _splitparams (url : string) : string * string :=
  if Str.contains "/" url then
    let i := Str.find_from ";" (Z.to_nat (Str.rfind "/" url)) url in
    if i <? 0 then (url, "")
    else (Str.take (Z.to_nat i) url, Str.drop (Z.to_nat (i + 1)) url)
  else
    let i := Str.find ";" url in
    (Str.take (Z.to_nat i) url, Str.drop (Z.to_nat (i + 1)) url).

Definition _splitnetloc (url : string) (start : nat) : string * string :=
  let delim :=
    foldl (λ delim c,
             let wdelim := Str.find_from c start url in
             if 0 <=? wdelim then Z.min delim wdelim else delim)
          (Z.of_nat (String.length url)) ["/"%char; "?"%char; "#"%char] in
  (Str.slice start (Z.to_nat delim) url, Str.drop (Z.to_nat delim) url).

Definition urlunsplit
    (c : string * string * string * string * string) : string :=
  let '(scheme, netloc, url, query, fragment) := c in
  let url :=
    if Str.nonempty netloc
       || (Str.nonempty scheme && mem scheme uses_netloc
           && negb (String.eqb (Str.take 2 url) "//"))
    then
      let url :=
        if Str.nonempty url && negb (String.eqb (Str.take 1 url) "/")
        then "/" +:+ url else url in
      "//" +:+ netloc +:+ url
    else url in
  let url := if Str.nonempty scheme then scheme +:+ ":" +:+ url else url in
  let url := if Str.nonempty query then url +:+ "?" +:+ query else url in
  let url := if Str.nonempty fragment then url +:+ "#" +:+ fragment else url in
  url.

Definition urlunparse
    (c : string * string * string * string * string * string) : string :=
  let '(scheme, netloc, url, params, query, fragment) := c in
  let url := if Str.nonempty params then url +:+ ";" +:+ params else url in
  urlunsplit (scheme, netloc, url, query, fragment).

(** [segments[1:-1] = filter(None, segments[1:-1])] *)
Definition filter_inner (segments : list string) : list string :=
  match segments with
  | [] => []
  | first :: rest =>
      match rest with
      | [] => [first]
      | _ => first :: filter (λ s, Str.nonempty s = true) (removelast rest)
               ++ [List.last rest ""]
      end
  end.

(** The [for seg in segments] loop of [urljoin]. *)
Fixpoint resolve (segments resolved_path : list string) : list string :=
  match segments with
  | [] => resolved_path
  | seg :: segments' =>
      if String.eqb seg ".." then resolve segments' (removelast resolved_path)
      else if String.eqb seg "." then resolve segments' resolved_path
      else resolve segments' (resolved_path ++ [seg])
  end.

Section with_host_check.

(** [_check_bracketed_host] validates the text between square brackets
    of a network location with [re] and [ipaddress]; it is a parameter
    here: [None] when it returns, [Some e] when it raises [e]. *)
Variable _check_bracketed_host : string → option Exception.

Definition _check_bracketed_netloc (netloc : string) : Exception + unit :=
  let hostname_and_port := rpartition_tail "@" netloc in
  let '(before_bracket, have_open_br, bracketed) :=
    partition "[" hostname_and_port in
  let check hostname :=
    match _check_bracketed_host hostname with
    | Some e => inl e
    | None => inr ()
    end in
  if have_open_br then
    if Str.nonempty before_bracket then inl "Invalid IPv6 URL"
    else
      let '(hostname, _, port) := partition "]" bracketed in
      if Str.nonempty port && negb (Str.startswith ":" port)
      then inl "Invalid IPv6 URL"
      else check hostname
  else
    let '(hostname, _, port) := partition ":" hostname_and_port in
    check hostname.

(** [urlsplit(url, scheme)] with [allow_fragments=True].  The final
    [_checknetloc] only raises when NFKC normalisation of the network
    location produces one of [/?#@:], which no code point below 256
    does, so it is a no-op on the strings modelled here. *)
Definition urlsplit (url scheme : string)
    : Exception + (string * string * string * string * string) :=
  let url := Str.lstrip _WHATWG_C0_CONTROL_OR_SPACE url in
  let scheme := Str.strip_chars _WHATWG_C0_CONTROL_OR_SPACE scheme in
  let url := foldl (λ u b, Str.remove b u) url _UNSAFE_URL_BYTES_TO_REMOVE in
  let scheme :=
    foldl (λ u b, Str.remove b u) scheme _UNSAFE_URL_BYTES_TO_REMOVE in
  let i := Str.find ":" url in
  let '(scheme, url) :=
    if (0 <? i)
       && match url with
          | String a _ => Str.is_ascii_alpha a
          | EmptyString => false
          end
       && Str.forallb (λ c, Str.contains c scheme_chars)
            (Str.take (Z.to_nat i) url)
    then (Str.lower (Str.take (Z.to_nat i) url), Str.drop (Z.to_nat (i + 1)) url)
    else (scheme, url) in
  let split_rest (netloc url : string) :=
    let '(url, fragment) :=
      if Str.contains "#" url then Str.split1 "#" url else (url, "") in
    let '(url, query) :=
      if Str.contains "?" url then Str.split1 "?" url else (url, "") in
    inr (scheme, netloc, url, query, fragment) in
  if String.eqb (Str.take 2 url) "//" then
    let '(netloc, url) := _splitnetloc url 2 in
    let open_br := Str.contains "[" netloc in
    let close_br := Str.contains "]" netloc in
    if (open_br && negb close_br) || (close_br && negb open_br)
    then inl "Invalid IPv6 URL"
    else if open_br && close_br then
      match _check_bracketed_netloc netloc with
      | inl e => inl e
      | inr _ => split_rest netloc url
      end
    else split_rest netloc url
  else split_rest "" url.

Definition urlparse (url scheme : string)
    : Exception + (string * string * string * string * string * string) :=
  match urlsplit url scheme with
  | inl e => inl e
  | inr (scheme, netloc, url, query, fragment) =>
      let '(url, params) :=
        if mem scheme uses_params && Str.contains ";" url
        then _splitparams url else (url, "") in
      inr (scheme, netloc, url, params, query, fragment)
  end.

Definition urljoin (base url : string) : Exception + string :=
  if negb (Str.nonempty base) then inr url
  else if negb (Str.nonempty url) then inr base
  else
    match urlparse base "" with
    | inl e => inl e
    | inr (bscheme, bnetloc, bpath, bparams, bquery, bfragment) =>
    match urlparse url bscheme with
    | inl e => inl e
    | inr (scheme, netloc, path, params, query, fragment) =>
        if negb (String.eqb scheme bscheme) || negb (mem scheme uses_relative)
        then inr url
        else if mem scheme uses_netloc && Str.nonempty netloc
        then inr (urlunparse (scheme, netloc, path, params, query, fragment))
        else
          let netloc := if mem scheme uses_netloc then bnetloc else netloc in
          if negb (Str.nonempty path) && negb (Str.nonempty params) then
            let query := if negb (Str.nonempty query) then bquery else query in
            inr (urlunparse (scheme, netloc, bpath, bparams, query, fragment))
          else
            let base_parts := Str.split "/" bpath in
            let base_parts :=
              if negb (String.eqb (List.last base_parts "") "")
              then removelast base_parts else base_parts in
            let segments :=
              if String.eqb (Str.take 1 path) "/" then Str.split "/" path
              else filter_inner (base_parts ++ Str.split "/" path) in
            let resolved_path := resolve segments [] in
            let resolved_path :=
              if bool_decide (List.last segments "" ∈ ["."; ".."])
              then resolved_path ++ [""] else resolved_path in
            let joined := Str.join "/" resolved_path in
            inr (urlunparse
                   (scheme, netloc,
                    if Str.nonempty joined then joined else "/",
                    params, query, fragment))
    end
    end.

End with_host_check.

End urllib_parse.

(** ** Collision-free file names ([_unique_filename]) *)

(** The [while candidate in existing_files] loop, [fuel] bounding the number
    of times its condition is evaluated; [None] when the bound is hit. *)
Fixpoint unique_loop (fuel : nat) (existing_files : gset string)
    (base ext candidate : string) (i : nat) : option string :=
  match fuel with
  | O => None
  | S fuel' =>
      if decide (candidate ∈ existing_files)
      then unique_loop fuel' existing_files base ext
             (base +:+ "_" +:+ pretty i +:+ ext) (S i)
      else Some candidate
  end.

(** [_unique_filename(directory, filename, existing_files)]: the name
    returned and the set after [existing_files.add(candidate)]. *)
Definition _unique_filename (fuel : nat) (directory filename : string)
    (existing_files : gset string) : option (string * gset string) :=
  let '(base, ext) := os_path.splitext filename in
  match unique_loop fuel existing_files base ext filename 1 with
  | Some candidate => Some (candidate, {[candidate]} ∪ existing_files)
  | None => None
  end.

(** ** The environment *)

(** What the program reads of a [requests] response. *)
Record Response := { text : string; content : list byte }.

Class Env := {
  World : Type;
  (** a [PhotoImage] *)
  Photo : Type;
  (** [requests.get(url, timeout=15)] followed by [raise_for_status()] *)
  requests_get : string → World → (Exception + Response) * World;
  (** [BeautifulSoup(text, "html.parser").find_all("img")]: the attribute
      dictionary of every [img] tag, in document order *)
  find_all_img : string → list (gmap string string);
  (** [Image.open(io.BytesIO(data))], [thumbnail((200, 200))] and
      [ImageTk.PhotoImage(img)] *)
  make_thumbnail : list byte → World → (Exception + Photo) * World;
  (** [os.path.isdir(path)] *)
  isdir : string → World → bool;
  (** [os.listdir(path)] *)
  listdir : string → World → Exception + list string;
  (** [with open(path, "wb") as f: f.write(data)]; [None] when nothing is
      raised *)
  write_file : string → list byte → World → option Exception * World;
  (** see [urllib_parse._check_bracketed_host] *)
  check_bracketed_host : string → option Exception;
}.

(** The external calls a command makes, in order, with whether they
    succeeded. *)
Inductive Dialog := showwarning | showerror | showinfo.

Inductive Event :=
| Messagebox (kind : Dialog) (title message : string)
| Print (line : string)
| HttpGet (url : string) (ok : bool)
| Thumbnail (data : list byte) (ok : bool)
| FileWrite (path : string) (data : list byte) (ok : bool).

Definition succeeded {A} (r : Exception + A) : bool :=
  match r with
  | inl _ => false
  | inr _ => true
  end.

Definition newline : string := String "010"%char "".

Section app.

Context `{env : Env}.

(** One entry of [self.images]; [selected_var] is the value of the
    entry's [BooleanVar]. *)
Record ImageItem := {
  url : string;
  data : list byte;
  photo : Photo;
  selected_var : bool;
  filename : string;
}.

Definition set_selected (b : bool) (item : ImageItem) : ImageItem :=
  {| url := url item; data := data item; photo := photo item;
     selected_var := b; filename := filename item |}.

(** The fields of [ImageScraperApp] the pipeline uses, the world, and the
    trace of external calls. *)
Record State := {
  images : list ImageItem;
  url_var : string;
  save_path_var : string;
  world : World;
  trace : list Event;
}.

Inductive Outcome (A : Type) :=
| Returned (a : A)
| Raised (e : Exception)
| OutOfFuel.
Global Arguments Returned {A} a.
Global Arguments Raised {A} e.
Global Arguments OutOfFuel {A}.

Definition M (A : Type) : Type := State → Outcome A * State.

Definition ret {A} (a : A) : M A := λ st, (Returned a, st).

Definition bind {A B} (m : M A) (k : A → M B) : M B :=
  λ st,
    match m st with
    | (Returned a, st') => k a st'
    | (Raised e, st') => (Raised e, st')
    | (OutOfFuel, st') => (OutOfFuel, st')
    end.

Definition raise {A} (e : Exception) : M A := λ st, (Raised e, st).

Definition out_of_fuel {A} : M A := λ st, (OutOfFuel, st).

Definition gets {A} (f : State → A) : M A := λ st, (Returned (f st), st).

Definition set_images (l : list ImageItem) : M unit :=
  λ st, (Returned (),
         {| images := l; url_var := url_var st;
            save_path_var := save_path_var st; world := world st;
            trace := trace st |}).

Definition set_url_var (u : string) : M unit :=
  λ st, (Returned (),
         {| images := images st; url_var := u;
            save_path_var := save_path_var st; world := world st;
            trace := trace st |}).

Definition set_world (w : World) : M unit :=
  λ st, (Returned (),
         {| images := images st; url_var := url_var st;
            save_path_var := save_path_var st; world := w;
            trace := trace st |}).

(** The state after the events [t] have been appended to its trace. *)
Definition log (t : list Event) (st : State) : State :=
  {| images := images st; url_var := url_var st;
     save_path_var := save_path_var st; world := world st;
     trace := trace st ++ t |}.

Definition emit (e : Event) : M unit := λ st, (Returned (), log [e] st).

End app.

#[global] Instance M_ret `{Env} : MRet M := @ret _.
#[global] Instance M_bind `{Env} : MBind M := λ A B k m, bind m k.

Section commands.

Context `{env : Env}.

Definition messagebox (kind : Dialog) (title message : string) : M unit :=
  emit (Messagebox kind title message).

Definition print (line : string) : M unit := emit (Print line).

(** The guarded [requests.get] / [raise_for_status] pair. *)
Definition http_get (u : string) : M (Exception + Response) :=
  w ← gets world;
  let '(r, w') := requests_get u w in
  set_world w';;
  emit (HttpGet u (succeeded r));;
  ret r.

Definition open_thumbnail (d : list byte) : M (Exception + Photo) :=
  w ← gets world;
  let '(r, w') := make_thumbnail d w in
  set_world w';;
  emit (Thumbnail d (succeeded r));;
  ret r.

Definition open_and_write (path : string) (d : list byte)
    : M (option Exception) :=
  w ← gets world;
  let '(r, w') := write_file path d w in
  set_world w';;
  emit (FileWrite path d (bool_decide (r = None)));;
  ret r.

(** A call into [urllib.parse] outside any [try]: its [ValueError]
    propagates. *)
Definition lift {A} (r : Exception + A) : M A :=
  match r with
  | inl e => raise e
  | inr a => ret a
  end.

Definition urljoin (base u : string) : Exception + string :=
  urllib_parse.urljoin check_bracketed_host base u.

Definition urlparse (u : string) :=
  urllib_parse.urlparse check_bracketed_host u "".

(** *** Clear cache / UI *)

Definition clear_images (silent : bool) : M unit :=
  set_images [];;
  if negb silent
  then messagebox showinfo "Info" "Cleared all loaded images from program (RAM)."
  else ret ().

(** *** Core logic *)

Definition _download_and_add_image (image_url : string) : M bool :=
  r ← http_get image_url;
  match r with
  | inl e =>
      print ("Failed to download image " +:+ image_url +:+ ": " +:+ e);;
      ret false
  | inr resp =>
      let data := content resp in
      t ← open_thumbnail data;
      match t with
      | inl e =>
          print ("Failed to create thumbnail for " +:+ image_url +:+ ": " +:+ e);;
          ret false
      | inr photo =>
          let selected_var := true in
          (* Filename suggestion *)
          '(_, _, path, _, _, _) ← lift (urlparse image_url);
          let filename := os_path.basename path in
          let filename := if negb (Str.nonempty filename) then "image" else filename in
          let filename :=
            if negb (Str.contains "." filename) then filename +:+ ".jpg"
            else filename in
          (* keep in RAM *)
          l ← gets images;
          set_images (l ++ [{| url := image_url; data := data; photo := photo;
                               selected_var := selected_var;
                               filename := filename |}]);;
          ret true
      end
  end.

(** The [for img in img_tags] loop of [scan_images]. *)
Fixpoint scan_loop (u : string) (img_tags : list (gmap string string))
    (found_count : nat) : M nat :=
  match img_tags with
  | [] => ret found_count
  | img :: img_tags' =>
      match img !! "src" with
      | None => scan_loop u img_tags' found_count
      | Some src =>
          if negb (Str.nonempty src) then scan_loop u img_tags' found_count
          else
            img_url ← lift (urljoin u src);
            (* Download image into RAM + create thumbnail *)
            ok ← _download_and_add_image img_url;
            scan_loop u img_tags' (if (ok : bool) then S found_count else found_count)
      end
  end.

Definition scan_images : M unit :=
  u ← gets (λ st, Str.strip (url_var st));
  if negb (Str.nonempty u) then
    messagebox showwarning "Warning"
      "Please input URL (copy from Chrome address bar)."
  else
    (* Basic normalize *)
    u ← (if negb (Str.startswith "http://" u || Str.startswith "https://" u)
         then let u := "http://" +:+ u in set_url_var u;; ret u
         else ret u);
    (* Clear old images (cache in RAM) + UI *)
    clear_images true;;
    r ← http_get u;
    match r with
    | inl e => messagebox showerror "Error" ("Failed to load page:" +:+ newline +:+ e)
    | inr resp =>
        let img_tags := find_all_img (text resp) in
        match img_tags with
        | [] => messagebox showinfo "Info" "No <img> tags found on this page."
        | _ =>
            found_count ← scan_loop u img_tags 0;
            if decide (found_count = 0%nat) then
              messagebox showinfo "Info" "No images could be downloaded."
            else
              messagebox showinfo "Info"
                ("Found and loaded " +:+ pretty found_count
                 +:+ " images into RAM (cache).")
        end
    end.

(** *** Selection helpers *)

Definition select_all : M unit :=
  l ← gets images;
  set_images (set_selected true <$> l).

Definition unselect_all : M unit :=
  l ← gets images;
  set_images (set_selected false <$> l).

(** *** Save to disk *)

(** The [for item in selected_items] loop of [save_selected]. *)
Fixpoint save_loop (fuel : nat) (target_dir : string)
    (selected_items : list ImageItem) (existing_files : gset string)
    (saved_count : nat) : M nat :=
  match selected_items with
  | [] => ret saved_count
  | item :: rest =>
      match _unique_filename fuel target_dir (filename item) existing_files with
      | None => out_of_fuel
      | Some (name, existing_files) =>
          let full_path := os_path.join target_dir name in
          r ← open_and_write full_path (data item);
          match r with
          | None => save_loop fuel target_dir rest existing_files (S saved_count)
          | Some e =>
              print ("Failed to save " +:+ full_path +:+ ": " +:+ e);;
              save_loop fuel target_dir rest existing_files saved_count
          end
      end
  end.

Definition save_selected (fuel : nat) : M unit :=
  l ← gets images;
  match l with
  | [] => messagebox showwarning "Warning" "No images loaded."
  | _ =>
      target_dir ← gets (λ st, Str.strip (save_path_var st));
      is_dir ← gets (λ st, isdir target_dir (world st));
      if negb (Str.nonempty target_dir) || negb is_dir then
        messagebox showwarning "Warning"
          "Invalid save path. Please set a valid folder."
      else
        let selected_items := filter (λ img, selected_var img = true) l in
        match selected_items with
        | [] => messagebox showwarning "Warning" "No images selected."
        | _ =>
            names ← (w ← gets world; lift (listdir target_dir w));
            let existing_files : gset string := list_to_set names in
            saved_count ← save_loop fuel target_dir selected_items existing_files 0;
            messagebox showinfo "Info"
              ("Saved " +:+ pretty saved_count +:+ " image(s) to:" +:+ newline
               +:+ target_dir)
        end
  end.

End commands.

(** ** Configuration and start-up

    [_load_config], [_save_config], [browse_save_path], and what [__init__]
    and [_build_ui] do to the fields of the application.  [self.config_data]
    is whatever [json.load] returned: any JSON value, not only an object. *)

Definition CONFIG_FILE : string := "config.json".
Definition CONFIG_KEY_SAVE_PATH : string := "default_save_path".

(** A value [json.load] can return.  A float is kept as its text. *)
#[warnings="-register-all"]
Inductive Json :=
| JNull
| JBool (b : bool)
| JInt (n : Z)
| JFloat (repr : string)
| JStr (s : string)
| JArr (l : list Json)
| JObj (m : gmap string Json).

(** [type(v).__name__] *)
Definition type_name (v : Json) : string :=
  match v with
  | JNull => "NoneType"
  | JBool _ => "bool"
  | JInt _ => "int"
  | JFloat _ => "float"
  | JStr _ => "str"
  | JArr _ => "list"
  | JObj _ => "dict"
  end.

(** [v.get] : the attribute lookup, which only a [dict] has. *)
Definition getattr_get (v : Json) : Exception + gmap string Json :=
  match v with
  | JObj m => inr m
  | _ => inl ("'" +:+ type_name v +:+ "' object has no attribute 'get'")
  end.

(** [v[key] = x] for a string [key]. *)
Definition setitem (v : Json) (key : string) (x : Json) : Exception + Json :=
  match v with
  | JObj m => inr (JObj (<[key := x]> m))
  | JArr _ => inl "list indices must be integers or slices, not str"
  | _ => inl ("'" +:+ type_name v +:+ "' object does not support item assignment")
  end.

(** The rest of the environment: the config file, the working directory,
    the folder dialog and Tk's conversion of a value to the text of a
    [StringVar]. *)
Class ConfigEnv `{env : Env} := {
  (** [os.path.exists(path)] *)
  path_exists : string → World → bool;
  (** [with open(path, "r", encoding="utf-8") as f: json.load(f)] *)
  json_load : string → World → Exception + Json;
  (** [with open(path, "w", encoding="utf-8") as f: json.dump(v, f, ...)];
      [None] when nothing is raised *)
  json_dump : string → Json → World → option Exception * World;
  (** [os.getcwd()] *)
  getcwd : World → Exception + string;
  (** [filedialog.askdirectory()]; the empty string when the dialog is
      cancelled *)
  askdirectory : World → string * World;
  (** the text of [tk.StringVar(value=v)] for a [v] that is not a [str] *)
  tk_text : Json → string;
}.

Section config.

Context `{cenv : ConfigEnv}.

(** The application object: the fields of [State] and [self.config_data]. *)
Record App := { state : State; config_data : Json }.

Definition MA (A : Type) : Type := App → Outcome A * App.

Definition retA {A} (a : A) : MA A := λ app, (Returned a, app).

Definition bindA {A B} (m : MA A) (k : A → MA B) : MA B :=
  λ app,
    match m app with
    | (Returned a, app') => k a app'
    | (Raised e, app') => (Raised e, app')
    | (OutOfFuel, app') => (OutOfFuel, app')
    end.

(** A command on the fields of [State], run on the application. *)
Definition on_state {A} (m : M A) : MA A :=
  λ app,
    let '(o, st') := m (state app) in
    (o, {| state := st'; config_data := config_data app |}).

Definition get_config : MA Json := λ app, (Returned (config_data app), app).

Definition set_config (v : Json) : MA unit :=
  λ app, (Returned (), {| state := state app; config_data := v |}).

Definition set_save_path_var (p : string) : M unit :=
  λ st, (Returned (),
         {| images := images st; url_var := url_var st;
            save_path_var := p; world := world st;
            trace := trace st |}).

End config.

#[global] Instance MA_ret `{ConfigEnv} : MRet MA := λ A a, retA a.
#[global] Instance MA_bind `{ConfigEnv} : MBind MA := λ A B k m, bindA m k.

Section config_commands.

Context `{cenv : ConfigEnv}.

(** *** Config *)

Definition _load_config : MA unit :=
  w ← on_state (gets world);
  if path_exists CONFIG_FILE w then
    match json_load CONFIG_FILE w with
    | inr v => set_config v
    | inl _ => set_config (JObj ∅)
    end
  else set_config (JObj ∅).

Definition _save_config : MA unit :=
  v ← get_config;
  w ← on_state (gets world);
  let '(r, w') := json_dump CONFIG_FILE v w in
  on_state (set_world w');;
  match r with
  | Some e => on_state (print ("Error saving config: " +:+ e))
  | None => retA ()
  end.

(** *** UI: the two [StringVar]s of [_build_ui] *)

Definition _build_ui : MA unit :=
  on_state (set_url_var "");;
  v ← get_config;
  m ← on_state (lift (getattr_get v));
  cwd ← on_state (w ← gets world; lift (getcwd w));
  let default_path := default (JStr cwd) (m !! CONFIG_KEY_SAVE_PATH) in
  on_state (set_save_path_var
              (match default_path with
               | JStr p => p
               | other => tk_text other
               end)).

Definition __init__ : MA unit :=
  on_state (set_images []);;
  set_config (JObj ∅);;
  _load_config;;
  _build_ui.

(** *** Browse Save Path *)

Definition browse_save_path : MA unit :=
  w ← on_state (gets world);
  let '(path, w') := askdirectory w in
  on_state (set_world w');;
  if Str.nonempty path then
    on_state (set_save_path_var path);;
    v ← get_config;
    v' ← on_state (lift (setitem v CONFIG_KEY_SAVE_PATH (JStr path)));
    set_config v';;
    _save_config
  else retA ().

End config_commands.

(** ** Notions used to state the properties *)

(** The names [_unique_filename] tries, in the order it tries them: the
    suggested name itself, then [base_1ext], [base_2ext], ... *)
Definition candidate_name (filename : string) (k : nat) : string :=
  match k with
  | O => filename
  | S _ =>
      let '(base, ext) := os_path.splitext filename in
      base +:+ "_" +:+ pretty k +:+ ext
  end.

(** The URLs requested, in order. *)
Definition requested (t : list Event) : list string :=
  omap (λ e, match e with HttpGet u _ => Some u | _ => None end) t.

(** The file writes attempted, in order: path, bytes, success. *)
Definition written (t : list Event) : list (string * list byte * bool) :=
  omap (λ e, match e with FileWrite p d ok => Some (p, d, ok) | _ => None end) t.

(** The lines printed, in order. *)
Definition printed (t : list Event) : list string :=
  omap (λ e, match e with Print l => Some l | _ => None end) t.

(** The dialogs shown, in order. *)
Definition dialogs (t : list Event) : list (Dialog * string * string) :=
  omap (λ e, match e with Messagebox k a b => Some (k, a, b) | _ => None end) t.

(** A URL has a scheme when [urlsplit] finds one in it. *)
Definition has_scheme (u : string) : bool :=
  match urllib_parse.urlsplit (λ _, None) u "" with
  | inr (scheme, _, _, _, _) => Str.nonempty scheme
  | inl _ => false
  end.

(** The URL [scan_images] requests for the page: the stripped text of the
    URL field, with [http://] put in front unless it starts with [http://]
    or [https://]. *)
Definition page_url `{env : Env} (st : State) : string :=
  let u := Str.strip (url_var st) in
  if Str.startswith "http://" u || Str.startswith "https://" u then u
  else "http://" +:+ u.

(** The download candidates of a page: the [src] of every [img] tag that
    has a non-empty one, joined to the page URL, in document order, up to
    the first [src] on which [urljoin] raises (and what it raises). *)
Fixpoint candidates `{env : Env} (u : string)
    (img_tags : list (gmap string string)) : list string * option Exception :=
  match img_tags with
  | [] => ([], None)
  | img :: img_tags' =>
      match img !! "src" with
      | None => candidates u img_tags'
      | Some src =>
          if Str.nonempty src then
            match urljoin u src with
            | inl e => ([], Some e)
            | inr img_url =>
                let '(l, o) := candidates u img_tags' in (img_url :: l, o)
            end
          else candidates u img_tags'
      end
  end.

(** The download of [image_url] fails in world [w]. *)
Definition download_fails `{env : Env} (image_url : string) (w : World) : Prop :=
  ∃ e w1, requests_get image_url w = (inl e, w1).

(** The download of [image_url] succeeds in world [w] and the bytes do not
    decode. *)
Definition decode_fails `{env : Env} (image_url : string) (w : World) : Prop :=
  ∃ resp w1 e w2,
    requests_get image_url w = (inr resp, w1)
    ∧ make_thumbnail (content resp) w1 = (inl e, w2).

(** The download of [image_url] succeeds in world [w] with response [resp]
    and its bytes decode to [ph]. *)
Definition fetched_and_decoded `{env : Env} (image_url : string) (w : World)
    (resp : Response) (ph : Photo) : Prop :=
  ∃ w1 w2,
    requests_get image_url w = (inr resp, w1)
    ∧ make_thumbnail (content resp) w1 = (inr ph, w2).

(** A suggested file name is well formed: not empty, with a dot, without
    a path separator. *)
Definition well_named (name : string) : Prop :=
  name ≠ "" ∧ Str.contains "." name = true ∧ Str.contains "/" name = false.

(** What [_load_config] leaves in [self.config_data] in world [w]: the
    value read from the file, or the empty object when the file is missing
    or cannot be read and parsed. *)
Definition loaded_config `{cenv : ConfigEnv} (w : World) : Json :=
  if path_exists CONFIG_FILE w then
    match json_load CONFIG_FILE w with
    | inr v => v
    | inl _ => JObj ∅
    end
  else JObj ∅.

(** The text the save-path field starts with, for a config object [m] and
    a working directory [cwd]. *)
Definition default_save_path `{cenv : ConfigEnv} (m : gmap string Json)
    (cwd : string) : string :=
  match m !! CONFIG_KEY_SAVE_PATH with
  | None => cwd
  | Some (JStr p) => p
  | Some other => tk_text other
  end.

(** ** A small concrete environment

    A fixed site map, the parse of each page, and a file system made of the
    directories that exist, the paths that cannot be written, and the files
    written so far. *)

Record TestWorld := {
  tw_dirs : gmap string (list string);
  tw_locked : gset string;
  tw_files : gmap string (list byte);
}.

Definition test_env (site : gmap string Response)
    (parser : string → list (gmap string string)) : Env := {|
  World := TestWorld;
  Photo := nat;
  requests_get u w :=
    (match site !! u with
     | Some r => inr r
     | None => inl ("404 Client Error: Not Found for url: " +:+ u)
     end, w);
  find_all_img := parser;
  make_thumbnail d w :=
    (match d with
     | [] => inl "cannot identify image file"
     | _ => inr (List.length d)
     end, w);
  isdir p w := bool_decide (is_Some (tw_dirs w !! p));
  listdir p w :=
    match tw_dirs w !! p with
    | Some l => inr l
    | None => inl "No such file or directory"
    end;
  write_file p d w :=
    if decide (p ∈ tw_locked w) then (Some "Permission denied", w)
    else (None, {| tw_dirs := tw_dirs w; tw_locked := tw_locked w;
                   tw_files := <[p := d]> (tw_files w) |});
  check_bracketed_host _ := None;
|}.

Definition quote : string := String (ascii_of_nat 34) "".

(** [<img src="/a.png"><img src="b.png"><img>] *)
Definition example_html : string :=
  "<img src=" +:+ quote +:+ "/a.png" +:+ quote +:+ "><img src=" +:+ quote
  +:+ "b.png" +:+ quote +:+ "><img>".

(** The [img] tags of [example_html]. *)
Definition example_tags : list (gmap string string) :=
  [ {[ "src" := "/a.png" ]}; {[ "src" := "b.png" ]}; ∅ ].

(** [<img src="//[x"><img src="b.png">] *)
Definition broken_html : string :=
  "<img src=" +:+ quote +:+ "//[x" +:+ quote +:+ "><img src=" +:+ quote
  +:+ "b.png" +:+ quote +:+ ">".

(** The [img] tags of [broken_html]. *)
Definition broken_tags : list (gmap string string) :=
  [ {[ "src" := "//[x" ]}; {[ "src" := "b.png" ]} ].

Definition png : list byte := [x89; x50; x4e; x47].

Definition example_site : gmap string Response :=
  {[ "http://x.test/dir/" := {| text := example_html; content := [] |};
     "http://x.test/broken/" := {| text := broken_html; content := [] |};
     "http://x.test/a.png" := {| text := ""; content := png |};
     "http://x.test/dir/b.png" := {| text := ""; content := [] |} ]}.

Definition example_env : Env :=
  test_env example_site
    (λ t, if decide (t = example_html) then example_tags
          else if decide (t = broken_html) then broken_tags
          else []).

Definition example_world : @World example_env :=
  {| tw_dirs := {[ "/out" := ["a.jpg"] ]}; tw_locked := {[ "/out/a_1.jpg" ]};
     tw_files := ∅ |}.

Definition example_item (u name : string) (sel : bool) : @ImageItem example_env :=
  {| url := u; data := png; photo := (4%nat : @Photo example_env);
     selected_var := sel; filename := name |}.

Definition example_state (l : list (@ImageItem example_env)) (u : string)
    : @State example_env :=
  {| images := l; url_var := u; save_path_var := " /out "; world := example_world;
     trace := [] |}.

(** The example environment with a target directory that exists and
    cannot be listed. *)
Definition unlistable_env : Env := {|
  World := @World example_env;
  Photo := @Photo example_env;
  requests_get := @requests_get example_env;
  find_all_img := @find_all_img example_env;
  make_thumbnail := @make_thumbnail example_env;
  isdir := @isdir example_env;
  listdir _ _ := inl "Permission denied";
  write_file := @write_file example_env;
  check_bracketed_host := @check_bracketed_host example_env;
|}.

Definition unlistable_state : @State unlistable_env :=
  {| images := [ {| url := "http://x.test/a.png"; data := png;
                    photo := (4%nat : @Photo unlistable_env);
                    selected_var := true; filename := "a.png" |} ];
     url_var := ""; save_path_var := "/out"; world := example_world;
     trace := [] |}.

(** An environment for the configuration: no network and no writable
    directory; a config file that is absent, unreadable or holds a value;
    a working directory; the folder the user picks in the dialog. *)
Record ConfigWorld := {
  cw_file : option (Exception + Json);
  cw_readonly : bool;
  cw_cwd : string;
  cw_pick : string;
}.

Definition config_base_env : Env := {|
  World := ConfigWorld;
  Photo := unit;
  requests_get u w := (inl "offline", w);
  find_all_img _ := [];
  make_thumbnail _ w := (inl "cannot identify image file", w);
  isdir _ _ := false;
  listdir _ _ := inl "No such file or directory";
  write_file _ _ w := (Some "Read-only file system", w);
  check_bracketed_host _ := None;
|}.

Definition config_path_exists (p : string) (w : ConfigWorld) : bool :=
  bool_decide (p = CONFIG_FILE) && bool_decide (is_Some (cw_file w)).

Definition config_json_load (p : string) (w : ConfigWorld) : Exception + Json :=
  match cw_file w with
  | Some r => r
  | None => inl "No such file or directory"
  end.

Definition config_json_dump (p : string) (v : Json) (w : ConfigWorld)
    : option Exception * ConfigWorld :=
  if cw_readonly w then (Some "Permission denied", w)
  else (None, {| cw_file := Some (inr v); cw_readonly := false;
                 cw_cwd := cw_cwd w; cw_pick := cw_pick w |}).

Definition config_env : @ConfigEnv config_base_env := {|
  path_exists := config_path_exists : string → @World config_base_env → bool;
  json_load := config_json_load
               : string → @World config_base_env → Exception + Json;
  json_dump := config_json_dump
               : string → Json → @World config_base_env
                 → option Exception * @World config_base_env;
  getcwd := (λ w, inr (cw_cwd w)) : @World config_base_env → Exception + string;
  askdirectory := (λ w, (cw_pick w, w))
                  : @World config_base_env → string * @World config_base_env;
  tk_text v := type_name v;
|}.

Definition config_app (file : option (Exception + Json)) (pick : string)
    (v : Json) : @App config_base_env :=
  {| state := {| images := []; url_var := "typed"; save_path_var := "/old";
                 world := ({| cw_file := file; cw_readonly := false;
                              cw_cwd := "/home/user"; cw_pick := pick |}
                           : @World config_base_env);
                 trace := [] |};
     config_data := v |}.

(** * Properties *)

Local Close Scope Z_scope.
Local Open Scope nat_scope.
Local Open Scope list_scope.

(** ** Strings *)

Lemma length_app (a b : string) :
  String.length (a +:+ b) = (String.length a + String.length b)%nat.
Proof. induction a as [|c a IH]; simpl; [done | by rewrite IH]. Qed.

Lemma app_inv_tail (a b c : string) : a +:+ c = b +:+ c → a = b.
Proof.
  revert b. induction a as [|x a IH]; intros [|y b] H.
  - done.
  - apply (f_equal String.length) in H. rewrite !length_app in H. simpl in H. lia.
  - apply (f_equal String.length) in H. rewrite !length_app in H. simpl in H. lia.
  - injection H as -> H. f_equal. by apply IH.
Qed.

Lemma take_drop (n : nat) (s : string) : Str.take n s +:+ Str.drop n s = s.
Proof.
  revert s. induction n as [|n IH]; intros [|c s]; try done.
  change (String c (Str.take n s +:+ Str.drop n s) = String c s). by rewrite IH.
Qed.

Lemma splitext_app (p base ext : string) :
  os_path.splitext p = (base, ext) → base +:+ ext = p.
Proof.
  unfold os_path.splitext, genericpath._splitext.
  destruct (_ && _); intros [= <- <-].
  - apply take_drop.
  - induction p as [|c p IH]; [done |].
    change (String c (p +:+ "") = String c p). by rewrite IH.
Qed.

(** ** The candidate names are pairwise different *)

Lemma candidate_name_succ (filename base ext : string) (k : nat) :
  os_path.splitext filename = (base, ext) →
  candidate_name filename (S k) = base +:+ "_" +:+ pretty (S k) +:+ ext.
Proof. intros H. unfold candidate_name. by rewrite H. Qed.

#[global] Instance candidate_name_inj (filename : string) :
  Inj (=) (=) (candidate_name filename).
Proof.
  destruct (os_path.splitext filename) as [base ext] eqn:Hsplit.
  pose proof (splitext_app _ _ _ Hsplit) as Happ.
  assert (Hfresh : ∀ k, candidate_name filename 0 ≠ candidate_name filename (S k)).
  { intros k H. rewrite (candidate_name_succ _ _ _ _ Hsplit) in H. simpl in H.
    rewrite <- Happ in H at 1. apply (inj (String.app base)) in H.
    apply (f_equal String.length) in H. rewrite !length_app in H. simpl in H. lia. }
  intros [|j] [|k] H; try done.
  - by apply Hfresh in H.
  - symmetry in H. by apply Hfresh in H.
  - rewrite !(candidate_name_succ _ _ _ _ Hsplit) in H.
    apply (inj (String.app base)) in H. apply (inj (String.app "_")) in H.
    apply app_inv_tail in H. by apply (inj pretty) in H.
Qed.

(** Pigeonhole: a set cannot hold the first [S n] candidates unless it has
    more than [n] elements. *)
Lemma candidates_claimed_size (filename : string) (X : gset string) (n : nat) :
  (∀ k, (k < n)%nat → candidate_name filename k ∈ X) → (n ≤ size X)%nat.
Proof.
  intros Hall.
  set (l := candidate_name filename <$> seq 0 n).
  assert (Hnodup : NoDup l).
  { apply (NoDup_fmap_2 (candidate_name filename)), NoDup_seq. }
  assert (Hsub : (list_to_set l : gset string) ⊆ X).
  { intros x Hx. apply elem_of_list_to_set in Hx.
    apply list_elem_of_fmap in Hx as (k & -> & Hk).
    apply elem_of_seq in Hk. apply Hall. lia. }
  apply subseteq_size in Hsub. rewrite size_list_to_set in Hsub by done.
  unfold l in Hsub. by rewrite length_fmap, length_seq in Hsub.
Qed.

(** Bounded search for the first candidate outside the set. *)
Lemma first_unclaimed_below (filename : string) (X : gset string) (n : nat) :
  (∀ k, (k < n)%nat → candidate_name filename k ∈ X)
  ∨ ∃ j, (j < n)%nat ∧ (candidate_name filename j ∉ X)
         ∧ ∀ j', (j' < j)%nat → candidate_name filename j' ∈ X.
Proof.
  induction n as [|n [IH | (j & Hj & Hout & Hbelow)]].
  - left. lia.
  - destruct (decide (candidate_name filename n ∈ X)) as [Hin | Hout].
    + left. intros k Hk. destruct (decide (k = n)) as [-> | ?]; [done |].
      apply IH. lia.
    + right. exists n. split_and!; [lia | done | done].
  - right. exists j. split_and!; [lia | done | done].
Qed.

Lemma first_unclaimed (filename : string) (X : gset string) :
  ∃ j, (j ≤ size X)%nat ∧ (candidate_name filename j ∉ X)
       ∧ ∀ j', (j' < j)%nat → candidate_name filename j' ∈ X.
Proof.
  destruct (first_unclaimed_below filename X (S (size X)))
    as [Hall | (j & Hj & Hout & Hbelow)].
  - apply candidates_claimed_size in Hall. lia.
  - exists j. split_and!; [lia | done | done].
Qed.

Lemma size_list_to_set_le (l : list string) :
  size (list_to_set l : gset string) ≤ List.length l.
Proof.
  induction l as [|x l IH]; simpl; [done |].
  rewrite size_union_alt, size_singleton.
  assert (Hle : size (list_to_set l ∖ {[x]} : gset string)
                  ≤ size (list_to_set l : gset string))
    by (apply subseteq_size; intros y Hy; by apply elem_of_difference in Hy as [? _]).
  lia.
Qed.

(** ** The collision loop *)

Lemma unique_loop_reaches (fuel : nat) (X : gset string)
    (filename base ext : string) (k j : nat) :
  os_path.splitext filename = (base, ext) →
  (k ≤ j)%nat → (j - k < fuel)%nat →
  (∀ j', (k ≤ j')%nat → (j' < j)%nat → candidate_name filename j' ∈ X) →
  candidate_name filename j ∉ X →
  unique_loop fuel X base ext (candidate_name filename k) (S k)
  = Some (candidate_name filename j).
Proof.
  intros Hsplit. revert k. induction fuel as [|fuel IH]; intros k Hkj Hfuel Hin Hout.
  - lia.
  - simpl. destruct (decide (k = j)) as [-> | Hne].
    + by rewrite decide_False.
    + rewrite decide_True by (apply Hin; lia).
      rewrite <- (candidate_name_succ _ _ _ _ Hsplit).
      apply IH; [lia | lia | | done]. intros j' ? ?. apply Hin; lia.
Qed.

Lemma unique_filename_first_unclaimed (fuel : nat) (directory filename : string)
    (X : gset string) (j : nat) :
  (j < fuel)%nat →
  candidate_name filename j ∉ X →
  (∀ j', (j' < j)%nat → candidate_name filename j' ∈ X) →
  _unique_filename fuel directory filename X
  = Some (candidate_name filename j, {[candidate_name filename j]} ∪ X).
Proof.
  intros Hfuel Hout Hin. unfold _unique_filename.
  destruct (os_path.splitext filename) as [base ext] eqn:Hsplit.
  change filename with (candidate_name filename 0) at 1.
  rewrite (unique_loop_reaches fuel X filename base ext 0 j); try done; try lia.
  intros j' _ ?. by apply Hin.
Qed.

(** C10. For every finite set of claimed names and every suggested name the
    collision loop terminates: any fuel above the size of the set yields the
    same result.  The name returned is not in the input set and the set
    returned is the input set with exactly that name added.  The suffix
    counter starts at 1 on every call: a colliding name whose [base_1] is
    free resolves to [base_1] whatever was resolved before, so in one batch
    ["a.jpg"] and then ["b.jpg"] resolve to ["a_1.jpg"] and ["b_1.jpg"]. *)
Theorem unique_filename_terminates (directory filename : string) (X : gset string) :
  ∃ name,
    (∀ fuel, size X < fuel →
       _unique_filename fuel directory filename X = Some (name, {[name]} ∪ X))
    ∧ (name ∉ X)
    ∧ (∀ x, x ∈ ({[name]} ∪ X : gset string) ↔ x = name ∨ x ∈ X)
    ∧ (filename ∉ X → name = filename)
    ∧ (filename ∈ X → candidate_name filename 1 ∉ X →
       name = candidate_name filename 1)
    ∧ (∀ fuel, 3 < fuel →
         _unique_filename fuel directory "a.jpg" {["a.jpg"; "b.jpg"]}
         = Some ("a_1.jpg", {["a_1.jpg"]} ∪ {["a.jpg"; "b.jpg"]})
         ∧ _unique_filename fuel directory "b.jpg"
             ({["a_1.jpg"]} ∪ {["a.jpg"; "b.jpg"]})
           = Some ("b_1.jpg", {["b_1.jpg"]} ∪ ({["a_1.jpg"]} ∪ {["a.jpg"; "b.jpg"]}))).
Proof.
  destruct (first_unclaimed filename X) as (j & Hj & Hout & Hin).
  exists (candidate_name filename j). split_and!.
  - intros fuel Hfuel. apply unique_filename_first_unclaimed; [lia | done | done].
  - done.
  - set_solver.
  - intros Hfree. destruct j as [|j]; [done |]. destruct Hfree. apply (Hin 0). lia.
  - intros Hclaimed Hfree. destruct j as [|[|j]]; [done | done |].
    destruct Hfree. apply Hin. lia.
  - intros fuel Hfuel. split.
    + apply (unique_filename_first_unclaimed fuel directory "a.jpg" _ 1);
        [lia | vm_compute; set_solver |].
      intros [|j'] ?; [vm_compute; set_solver | lia].
    + apply (unique_filename_first_unclaimed fuel directory "b.jpg" _ 1);
        [lia | vm_compute; set_solver |].
      intros [|j'] ?; [vm_compute; set_solver | lia].
Qed.

Lemma unique_filename_terminates_witness :
  ∃ name,
    size ({["a.jpg"]} : gset string) < 2
    ∧ _unique_filename 2 "/out" "a.jpg" {["a.jpg"]}
      = Some (name, {[name]} ∪ {["a.jpg"]})
    ∧ name ∉ ({["a.jpg"]} : gset string).
Proof.
  destruct (unique_filename_terminates "/out" "a.jpg" {["a.jpg"]})
    as (name & Hrun & Hout & _).
  exists name. split_and!; [rewrite size_singleton; lia | | done].
  apply Hrun. rewrite size_singleton. lia.
Defined.

Section pipeline.

Context `{env : Env}.

Implicit Types (st : State) (t : list Event).

(** ** State bookkeeping *)

Lemma log_nil st : log [] st = st.
Proof. destruct st. unfold log. simpl. by rewrite app_nil_r. Qed.

Lemma log_log t1 t2 st : log t2 (log t1 st) = log (t1 ++ t2) st.
Proof. unfold log. simpl. by rewrite app_assoc. Qed.

(** C7. Clear is idempotent: from any registry, clearing twice in a row
    returns normally both times and leaves the registry empty, and a
    clear of an already empty registry is a successful no-op on it. *)
Theorem clear_images_idempotent (silent1 silent2 : bool) st :
  ∃ st1 st2,
    clear_images silent1 st = (Returned (), st1)
    ∧ clear_images silent2 st1 = (Returned (), st2)
    ∧ (clear_images silent1;; clear_images silent2) st = (Returned (), st2)
    ∧ images st1 = [] ∧ images st2 = []
    ∧ clear_images true st1 = (Returned (), st1).
Proof.
  destruct silent1, silent2; do 2 eexists; split_and!; reflexivity.
Qed.

(** C6. After [select_all] every item's flag is true and after
    [unselect_all] every item's flag is false, whatever the flags were;
    both return normally and touch nothing else of the items.  An item
    appended by [_download_and_add_image] has its flag set. *)
Theorem selection_flags st :
  (∃ st', select_all st = (Returned (), st')
          ∧ Forall (λ item, selected_var item = true) (images st')
          ∧ images st' = set_selected true <$> images st)
  ∧ (∃ st', unselect_all st = (Returned (), st')
            ∧ Forall (λ item, selected_var item = false) (images st')
            ∧ images st' = set_selected false <$> images st)
  ∧ (∀ b item, url (set_selected b item) = url item
               ∧ data (set_selected b item) = data item
               ∧ photo (set_selected b item) = photo item
               ∧ filename (set_selected b item) = filename item)
  ∧ (∀ image_url, ∃ new,
       images (_download_and_add_image image_url st).2 = images st ++ new
       ∧ Forall (λ item, selected_var item = true) new).
Proof.
  split_and!.
  - eexists. split_and!; [reflexivity | | reflexivity].
    simpl. by apply Forall_fmap, Forall_true.
  - eexists. split_and!; [reflexivity | | reflexivity].
    simpl. by apply Forall_fmap, Forall_true.
  - done.
  - intros image_url.
    unfold _download_and_add_image, http_get, open_thumbnail. simpl.
    unfold mbind, M_bind, bind, gets. simpl.
    destruct (requests_get image_url (world st)) as [[e | resp] w1]; simpl.
    { exists []. by rewrite app_nil_r. }
    destruct (make_thumbnail (content resp) w1) as [[e | ph] w2]; simpl.
    { exists []. by rewrite app_nil_r. }
    destruct (urlparse image_url) as [e | [[[[[? ?] path] ?] ?] ?]]; simpl.
    { exists []. by rewrite app_nil_r. }
    eexists [_]. split; [reflexivity |]. by repeat constructor.
Qed.

(** ** Scanning *)

Lemma nonempty_true (s : string) : Str.nonempty s = true ↔ s ≠ "".
Proof. by destruct s. Qed.

Lemma nonempty_false (s : string) : Str.nonempty s = false ↔ s = "".
Proof. by destruct s. Qed.

(** C9. A scan with an empty or whitespace-only URL only shows the
    warning: it returns before the pre-scan clear, so the registry (items,
    order, flags), the URL field, the save path and the world are as they
    were, and no request is made. *)
Theorem scan_blank_url_frame st :
  Str.strip (url_var st) = "" →
  ∃ st',
    scan_images st = (Returned (), st')
    ∧ images st' = images st
    ∧ url_var st' = url_var st ∧ save_path_var st' = save_path_var st
    ∧ world st' = world st
    ∧ trace st' = trace st ++ [Messagebox showwarning "Warning"
                                 "Please input URL (copy from Chrome address bar)."].
Proof.
  intros Hblank. eexists. split.
  { unfold scan_images, mbind, M_bind, bind, gets. by rewrite Hblank. }
  by split_and!.
Qed.

(** C5. When the page request fails, the scan returns after showing the
    error: the registry is empty, the page request is the only request of
    the scan, and no thumbnail is made. *)
Theorem scan_page_fetch_failure st (e : Exception) (w' : World) :
  Str.strip (url_var st) ≠ "" →
  requests_get (page_url st) (world st) = (inl e, w') →
  ∃ st',
    scan_images st = (Returned (), st')
    ∧ images st' = []
    ∧ world st' = w'
    ∧ trace st' = trace st ++ [HttpGet (page_url st) false;
                               Messagebox showerror "Error"
                                 ("Failed to load page:" +:+ newline +:+ e)].
Proof.
  intros Hurl Hget. apply nonempty_true in Hurl. unfold page_url in *.
  unfold scan_images, http_get, mbind, M_bind, bind, gets. rewrite Hurl. simpl.
  destruct (Str.startswith "http://" _ || Str.startswith "https://" _); simpl;
    rewrite Hget; simpl; eexists; (split; [reflexivity |]).
  all: split_and!; try done; simpl; by rewrite <- app_assoc.
Qed.

(** What one call of [_download_and_add_image] does, by cases on the two
    guarded steps and on the parse of the URL for the file name. *)
Lemma download_and_add_image_cases (image_url : string) st :
  ∃ o st' t,
    _download_and_add_image image_url st = (o, st')
    ∧ trace st' = trace st ++ t
    ∧ requested t = [image_url] ∧ dialogs t = [] ∧ written t = []
    ∧ url_var st' = url_var st ∧ save_path_var st' = save_path_var st
    ∧ ((o = Returned false ∧ images st' = images st
        ∧ (download_fails image_url (world st)
           ∨ decode_fails image_url (world st)))
       ∨ (∃ resp ph name,
            o = Returned true
            ∧ fetched_and_decoded image_url (world st) resp ph
            ∧ images st' = images st ++ [{| url := image_url;
                                            data := content resp;
                                            photo := ph;
                                            selected_var := true;
                                            filename := name |}])
       ∨ (∃ resp ph e,
            o = Raised e
            ∧ fetched_and_decoded image_url (world st) resp ph
            ∧ urlparse image_url = inl e
            ∧ images st' = images st)).
Proof.
  unfold _download_and_add_image, http_get, open_thumbnail,
    download_fails, decode_fails, fetched_and_decoded.
  unfold mbind, M_bind, bind, gets. simpl.
  destruct (requests_get image_url (world st)) as [[e | resp] w1] eqn:Hget;
    simpl.
  { do 3 eexists. split; [reflexivity |]. simpl. rewrite <- app_assoc.
    split_and!; try done. left. split_and!; try done. left. eauto. }
  destruct (make_thumbnail (content resp) w1) as [[e | ph] w2] eqn:Hthumb;
    simpl.
  { do 3 eexists. split; [reflexivity |]. simpl. rewrite <- !app_assoc.
    split_and!; try done. left. split_and!; try done. right.
    exists resp, w1, e, w2. done. }
  destruct (urlparse image_url) as [e | [[[[[? ?] path] ?] ?] ?]] eqn:Hparse;
    simpl.
  { do 3 eexists. split; [reflexivity |]. simpl. rewrite <- !app_assoc.
    split_and!; try done. right. right. exists resp, ph, e.
    split_and!; try done. by exists w1, w2. }
  do 3 eexists. split; [reflexivity |]. simpl. rewrite <- !app_assoc.
  split_and!; try done. right. left. exists resp, ph. eexists.
  split_and!; try done. by exists w1, w2.
Qed.

Lemma requested_app t1 t2 : requested (t1 ++ t2) = requested t1 ++ requested t2.
Proof. apply omap_app. Qed.

Lemma dialogs_app t1 t2 : dialogs (t1 ++ t2) = dialogs t1 ++ dialogs t2.
Proof. apply omap_app. Qed.

Lemma written_app t1 t2 : written (t1 ++ t2) = written t1 ++ written t2.
Proof. apply omap_app. Qed.

Lemma printed_app t1 t2 : printed (t1 ++ t2) = printed t1 ++ printed t2.
Proof. apply omap_app. Qed.

(** One iteration of the scan loop. *)
Lemma scan_loop_cons (u : string) (img : gmap string string)
    (rest : list (gmap string string)) (n : nat) st :
  scan_loop u (img :: rest) n st
  = match img !! "src" with
    | None => scan_loop u rest n st
    | Some src =>
        if Str.nonempty src then
          match urljoin u src with
          | inl e => (Raised e, st)
          | inr img_url =>
              match _download_and_add_image img_url st with
              | (Returned ok, st1) =>
                  scan_loop u rest (if ok then S n else n) st1
              | (Raised e, st1) => (Raised e, st1)
              | (OutOfFuel, st1) => (OutOfFuel, st1)
              end
          end
        else scan_loop u rest n st
    end.
Proof.
  simpl. destruct (img !! "src") as [src |]; [| done].
  destruct (Str.nonempty src); [| done]. simpl.
  unfold mbind, M_bind, bind at 1. simpl.
  destruct (urljoin u src) as [e | img_url]; [done |]. simpl.
  unfold bind at 1.
  by destruct (_download_and_add_image img_url st) as [[ok | e |] st1].
Qed.

#[local] Arguments scan_loop : simpl never.

(** The whole scan loop: what it requests, what it appends and how it
    ends, against the candidates of the page. *)
Lemma scan_loop_run (u : string) (img_tags : list (gmap string string))
    (n : nat) st :
  ∃ o st' t new,
    scan_loop u img_tags n st = (o, st')
    ∧ trace st' = trace st ++ t
    ∧ images st' = images st ++ new
    ∧ url_var st' = url_var st ∧ save_path_var st' = save_path_var st
    ∧ dialogs t = [] ∧ written t = []
    ∧ Forall (λ item, url item ∈ requested t ∧ selected_var item = true) new
    ∧ requested t `prefix_of` (candidates u img_tags).1
    ∧ match o with
      | Returned n' =>
          n' = n + List.length new
          ∧ requested t = (candidates u img_tags).1
          ∧ (candidates u img_tags).2 = None
      | Raised e =>
          (requested t = (candidates u img_tags).1
           ∧ (candidates u img_tags).2 = Some e)
          ∨ (∃ x, x ∈ requested t ∧ urlparse x = inl e)
      | OutOfFuel => False
      end.
Proof.
  revert n st. induction img_tags as [|img rest IH]; intros n st.
  { exists (Returned n), st, [], []. simpl. rewrite !app_nil_r.
    split_and!; try done; lia. }
  rewrite scan_loop_cons. simpl candidates.
  destruct (img !! "src") as [src |]; [| apply IH].
  destruct (Str.nonempty src); [| apply IH].
  destruct (urljoin u src) as [e | img_url].
  { exists (Raised e), st, [], []. simpl. rewrite !app_nil_r.
    split_and!; try done. by left. }
  destruct (candidates u rest) as [l oe] eqn:Hcand.
  destruct (download_and_add_image_cases img_url st)
    as (o1 & st1 & t1 & -> & Ht1 & Hreq1 & Hdlg1 & Hwr1 & Hu1 & Hs1 & Hcases).
  destruct Hcases as [(-> & Himg1 & _) | [(resp & ph & name & -> & _ & Himg1)
                                         | (resp & ph & e & -> & _ & Hparse & Himg1)]].
  - destruct (IH n st1)
      as (o & st' & t2 & new & -> & Ht2 & Himg2 & Hu2 & Hs2 & Hdlg2 & Hwr2
          & Hnew & Hpre & Hend).
    try rewrite Hcand in Hpre, Hend. simpl in Hpre, Hend.
    exists o, st', (t1 ++ t2), new.
    rewrite requested_app, dialogs_app, written_app, Hreq1, Hdlg1, Hwr1, Hdlg2, Hwr2.
    split_and!; try done; try congruence.
    + by rewrite Ht2, Ht1, app_assoc.
    + eapply Forall_impl; [exact Hnew |]. intros item [? ?]. split; [| done].
      simpl. by right.
    + simpl. by apply prefix_cons.
    + destruct o as [n' | e |]; [| | done]; simpl.
      * destruct Hend as (-> & -> & ->). done.
      * destruct Hend as [[-> ->] | (x & Hx & Hparse)]; [by left |].
        right. exists x. split; [by right | done].
  - destruct (IH (S n) st1)
      as (o & st' & t2 & new & -> & Ht2 & Himg2 & Hu2 & Hs2 & Hdlg2 & Hwr2
          & Hnew & Hpre & Hend).
    try rewrite Hcand in Hpre, Hend. simpl in Hpre, Hend.
    eexists o, st', (t1 ++ t2), (_ :: new).
    rewrite requested_app, dialogs_app, written_app, Hreq1, Hdlg1, Hwr1, Hdlg2, Hwr2.
    split_and!; try done; try congruence.
    + by rewrite Ht2, Ht1, app_assoc.
    + rewrite Himg2, Himg1, <- app_assoc. done.
    + constructor; [simpl; split; [by left | done] |].
      eapply Forall_impl; [exact Hnew |]. intros item [? ?]. split; [| done].
      simpl. by right.
    + simpl. by apply prefix_cons.
    + destruct o as [n' | e |]; [| | done]; simpl.
      * destruct Hend as (-> & -> & ->). split_and!; [lia | done | done].
      * destruct Hend as [[-> ->] | (x & Hx & Hparse)]; [by left |].
        right. exists x. split; [by right | done].
  - exists (Raised e), st1, t1, []. rewrite Hreq1, app_nil_r.
    split_and!; try done.
    + simpl. apply prefix_cons, prefix_nil.
    + right. exists img_url. split; [by left | done].
Qed.

(** When every join and every file-name parse succeeds, the loop requests
    every candidate, in order, and returns. *)
Lemma scan_loop_requests_candidates (u : string)
    (img_tags : list (gmap string string)) (urls : list string) (n : nat) st :
  candidates u img_tags = (urls, None) →
  (∀ x, x ∈ urls → ∃ r, urlparse x = inr r) →
  ∃ st' t new,
    scan_loop u img_tags n st = (Returned (n + List.length new), st')
    ∧ trace st' = trace st ++ t
    ∧ requested t = urls
    ∧ images st' = images st ++ new
    ∧ Forall (λ item, url item ∈ urls ∧ selected_var item = true) new.
Proof.
  intros Hcand Hparse.
  destruct (scan_loop_run u img_tags n st)
    as (o & st' & t & new & Hrun & Ht & Himg & _ & _ & _ & _ & Hnew & Hpre & Hend).
  rewrite Hcand in Hpre, Hend. simpl in Hpre, Hend.
  destruct o as [n' | e |]; [| | done].
  - destruct Hend as (-> & Hreq & _). exists st', t, new.
    split_and!; try done. by rewrite Hreq in Hnew.
  - destruct Hend as [[_ [=]] | (x & Hx & Hbad)].
    destruct (Hparse x) as [r Hr]; [| congruence].
    destruct Hpre as [k ->]. apply elem_of_app. by left.
Qed.


(** The page of the specification's example: its three tags give two
    candidates, and the scan loop requests exactly those two, in order. *)
Lemma example_page_candidates :
  candidates "http://x.test/dir/" example_tags
  = (["http://x.test/a.png"; "http://x.test/dir/b.png"], None).
Proof. reflexivity. Qed.

Lemma example_page_requests (n : nat) st :
  ∃ n' st' t,
    scan_loop "http://x.test/dir/" example_tags n st = (Returned n', st')
    ∧ trace st' = trace st ++ t
    ∧ requested t = ["http://x.test/a.png"; "http://x.test/dir/b.png"].
Proof.
  destruct (scan_loop_requests_candidates _ _ _ n st example_page_candidates)
    as (st' & t & new & Hrun & Ht & Hreq & _).
  - intros x Hx. apply elem_of_cons in Hx as [-> | Hx]; [by eexists |].
    apply list_elem_of_singleton in Hx as ->. by eexists.
  - by exists (n + List.length new), st', t.
Qed.

(** A source that is repeated is requested again: nothing is de-duplicated. *)
Lemma repeated_source_candidates :
  candidates "http://x.test/dir/" [ {[ "src" := "b.png" ]}; {[ "src" := "b.png" ]} ]
  = (["http://x.test/dir/b.png"; "http://x.test/dir/b.png"], None).
Proof. reflexivity. Qed.

(** C3. On the tags [<img src="//[x">] and [<img src="b.png">] of a page
    at [http://x.test/dir/], [urljoin] raises on the first source, outside
    any [try]: the scan loop ends with that exception before anything is
    requested, so the second tag, whose source is not empty, yields no
    candidate, although on its own it yields
    [http://x.test/dir/b.png]. *)
Theorem scan_loop_join_error (n : nat) st :
  scan_loop "http://x.test/dir/" broken_tags n st
  = (Raised "Invalid IPv6 URL", st)
  ∧ ∃ n' st' t,
      scan_loop "http://x.test/dir/" [ {[ "src" := "b.png" ]} ] n st
      = (Returned n', st')
      ∧ trace st' = trace st ++ t
      ∧ requested t = ["http://x.test/dir/b.png"].
Proof.
  split; [reflexivity |].
  destruct (scan_loop_requests_candidates "http://x.test/dir/"
              [ {[ "src" := "b.png" ]} ] ["http://x.test/dir/b.png"] n st)
    as (st' & t & new & Hrun & Ht & Hreq & _).
  - reflexivity.
  - intros x Hx. apply list_elem_of_singleton in Hx as ->. by eexists.
  - by exists (n + List.length new), st', t.
Qed.

(** C2. For a URL field that is not blank, the first thing a scan
    requests is the stripped text of the field, unchanged when it starts
    with [http://] or [https://] and with [http://] put in front of it
    otherwise. *)
Theorem scan_requests_page_url st :
  Str.strip (url_var st) ≠ "" →
  let u := Str.strip (url_var st) in
  ∃ ok t,
    trace (scan_images st).2
    = trace st ++ HttpGet (if Str.startswith "http://" u
                              || Str.startswith "https://" u
                           then u else "http://" +:+ u) ok :: t.
Proof.
  intros Hurl u. apply nonempty_true in Hurl. subst u.
  unfold scan_images, http_get, mbind, M_bind, bind, gets.
  rewrite Hurl. simpl.
  destruct (Str.startswith "http://" _ || Str.startswith "https://" _); simpl.
  all: destruct (requests_get _ (world st)) as [[e | resp] w1]; simpl.
  all: try (rewrite <- app_assoc; by eexists _, [_]).
  all: destruct (find_all_img (text resp)) as [|img l]; simpl.
  all: try (rewrite <- app_assoc; by eexists _, [_]).
  all: match goal with |- context [scan_loop ?v ?tags 0 ?s] =>
         destruct (scan_loop_run v tags 0 s)
           as (o & st' & t & new & -> & Ht & _) end.
  all: simpl in Ht; rewrite <- app_assoc in Ht.
  all: destruct o as [k | e |]; simpl; [destruct (decide (k = 0)); simpl | |].
  all: rewrite Ht; try rewrite <- app_assoc; by eexists _, _.
Qed.

(** ** Saving *)

(** One iteration of the save loop, given the name the collision loop
    settles on. *)
Lemma save_loop_cons (fuel : nat) (target_dir : string) (item : ImageItem)
    (rest : list ImageItem) (X : gset string) (n : nat) (name : string) st :
  _unique_filename fuel target_dir (filename item) X = Some (name, {[name]} ∪ X) →
  save_loop fuel target_dir (item :: rest) X n st
  = match write_file (os_path.join target_dir name) (data item) (world st) with
    | (None, w') =>
        save_loop fuel target_dir rest ({[name]} ∪ X) (S n)
          (log [FileWrite (os_path.join target_dir name) (data item) true]
             {| images := images st; url_var := url_var st;
                save_path_var := save_path_var st; world := w';
                trace := trace st |})
    | (Some e, w') =>
        save_loop fuel target_dir rest ({[name]} ∪ X) n
          (log [FileWrite (os_path.join target_dir name) (data item) false;
                Print ("Failed to save " +:+ os_path.join target_dir name
                       +:+ ": " +:+ e)]
             {| images := images st; url_var := url_var st;
                save_path_var := save_path_var st; world := w';
                trace := trace st |})
    end.
Proof.
  intros Hname. simpl. rewrite Hname.
  unfold open_and_write, mbind, M_bind, bind, gets. simpl.
  destruct (write_file _ _ _) as [[e |] w']; simpl; [| done].
  by rewrite log_log.
Qed.

#[local] Arguments save_loop : simpl never.

(** The whole save loop: every item is written once, under a name that
    was free and that no other item of the batch gets; the count grows by
    the number of writes that succeeded and each failure prints a line. *)
Lemma save_loop_run (fuel : nat) (target_dir : string)
    (items : list ImageItem) (X : gset string) (n : nat) st :
  size X + List.length items ≤ fuel →
  ∃ st' t names,
    save_loop fuel target_dir items X n st
    = (Returned (n + List.length (filter (λ w, w.2 = true) (written t))), st')
    ∧ trace st' = trace st ++ t
    ∧ images st' = images st
    ∧ url_var st' = url_var st ∧ save_path_var st' = save_path_var st
    ∧ (λ w, w.1.2) <$> written t = data <$> items
    ∧ (λ w, w.1.1) <$> written t = os_path.join target_dir <$> names
    ∧ NoDup names ∧ Forall (λ name, name ∉ X) names
    ∧ List.length (printed t)
      + List.length (filter (λ w, w.2 = true) (written t))
      = List.length items
    ∧ dialogs t = [] ∧ requested t = [].
Proof.
  revert X n st. induction items as [|item rest IH]; intros X n st Hfuel.
  { exists st, [], []. simpl. rewrite app_nil_r, Nat.add_0_r.
    split_and!; try done; constructor. }
  simpl in Hfuel.
  destruct (first_unclaimed (filename item) X) as (j & Hj & Hout & Hin).
  set (name := candidate_name (filename item) j) in *.
  assert (Hname : _unique_filename fuel target_dir (filename item) X
                  = Some (name, {[name]} ∪ X)).
  { apply unique_filename_first_unclaimed; [lia | done | done]. }
  assert (Hsize : size ({[name]} ∪ X) = S (size X)).
  { rewrite size_union by set_solver. by rewrite size_singleton. }
  rewrite (save_loop_cons _ _ _ _ _ _ _ _ Hname).
  destruct (write_file _ _ _) as [[e |] w'].
  - match goal with |- context [save_loop _ _ _ _ n ?s] =>
      destruct (IH ({[name]} ∪ X) n s)
        as (st' & t & names & -> & Ht & Himg & Hu & Hs & Hdata & Hpath & Hnodup
            & Hfree & Hcount & Hdlg & Hreq) end; [lia |].
    simpl in Ht, Himg, Hu, Hs.
    exists st', (FileWrite (os_path.join target_dir name) (data item) false
                 :: Print ("Failed to save " +:+ os_path.join target_dir name
                           +:+ ": " +:+ e) :: t), (name :: names).
    unfold written, printed, dialogs, requested in *. simpl.
    rewrite Ht, <- app_assoc.
    split_and!; try done; try (simpl; by f_equal).
    + constructor; [| done]. intros Hdup.
      eapply Forall_forall in Hfree; [| exact Hdup]. set_solver.
    + constructor; [done |]. eapply Forall_impl; [exact Hfree |]. set_solver.
  - match goal with |- context [save_loop _ _ _ _ (S n) ?s] =>
      destruct (IH ({[name]} ∪ X) (S n) s)
        as (st' & t & names & -> & Ht & Himg & Hu & Hs & Hdata & Hpath & Hnodup
            & Hfree & Hcount & Hdlg & Hreq) end; [lia |].
    simpl in Ht, Himg, Hu, Hs.
    exists st', (FileWrite (os_path.join target_dir name) (data item) true :: t),
      (name :: names).
    unfold written, printed, dialogs, requested in *. simpl.
    rewrite Ht, <- app_assoc.
    split_and!; try done; try (simpl; by f_equal).
    + by rewrite Nat.add_succ_r.
    + constructor; [| done]. intros Hdup.
      eapply Forall_forall in Hfree; [| exact Hdup]. set_solver.
    + constructor; [done |]. eapply Forall_impl; [exact Hfree |]. set_solver.
    + unfold omap in *. simpl in *. lia.
Qed.

(** X14. When the listing of the target directory raises, the exception
    leaves [save_selected]: nothing is written and nothing is reported. *)
Lemma save_selected_listing_error (fuel : nat) st (e : Exception) :
  let selected_items := filter (λ img, selected_var img = true) (images st) in
  let target_dir := Str.strip (save_path_var st) in
  selected_items ≠ [] → target_dir ≠ "" → isdir target_dir (world st) = true →
  listdir target_dir (world st) = inl e →
  save_selected fuel st = (Raised e, st).
Proof.
  intros selected_items target_dir Hsel Hdir Hisdir Hlist.
  subst selected_items target_dir. apply nonempty_true in Hdir.
  unfold save_selected, mbind, M_bind, bind, gets.
  destruct (images st) as [|item l] eqn:Himages; [done |].
  rewrite Hdir, Hisdir. simpl.
  destruct (filter _ (item :: l)) as [|item' l'] eqn:Hfilter; [done |].
  simpl. by rewrite Hlist.
Qed.

(** C8. The three ends of a save request.  With no selected item, or with
    a target directory that is empty or not a directory, the save only shows
    a warning: nothing is written and nothing else changes.  Otherwise the
    directory is listed, outside any [try].  When the listing returns, every
    selected item is written once, in order; a write that fails prints a
    line and the loop goes on; the count in the final dialog is the number
    of writes that succeeded.  When the listing raises, the exception leaves
    [save_selected] with the state as it was: no warning, no count, no
    write. *)
Theorem save_selected_outcomes (fuel : nat) st :
  let selected_items := filter (λ img, selected_var img = true) (images st) in
  let target_dir := Str.strip (save_path_var st) in
  (selected_items = [] ∨ target_dir = "" ∨ isdir target_dir (world st) = false →
   ∃ message,
     save_selected fuel st
     = (Returned (), log [Messagebox showwarning "Warning" message] st)
     ∧ written (trace (log [Messagebox showwarning "Warning" message] st))
       = written (trace st))
  ∧ (selected_items ≠ [] → target_dir ≠ "" →
     isdir target_dir (world st) = true →
     (∀ names, listdir target_dir (world st) = inr names →
        List.length names + List.length selected_items ≤ fuel →
        ∃ st' t k,
          save_selected fuel st = (Returned (), st')
          ∧ trace st' = trace st ++ t
                        ++ [Messagebox showinfo "Info"
                              ("Saved " +:+ pretty k +:+ " image(s) to:"
                               +:+ newline +:+ target_dir)]
          ∧ (λ w, w.1.2) <$> written t = data <$> selected_items
          ∧ k = List.length (filter (λ w, w.2 = true) (written t))
          ∧ List.length (printed t) + k = List.length selected_items
          ∧ dialogs t = []
          ∧ images st' = images st)
     ∧ (∀ e, listdir target_dir (world st) = inl e →
          save_selected fuel st = (Raised e, st))).
Proof.
  intros selected_items target_dir. subst selected_items target_dir. split.
  - intros Hwarn.
    unfold save_selected, mbind, M_bind, bind, gets.
    destruct (images st) as [|item l] eqn:Himages.
    { eexists. split; [reflexivity |]. simpl. rewrite written_app. simpl.
      by rewrite app_nil_r. }
    destruct (negb (Str.nonempty (Str.strip (save_path_var st)))
              || negb (isdir (Str.strip (save_path_var st)) (world st)))
      eqn:Hinvalid.
    { eexists. split; [reflexivity |]. simpl. rewrite written_app. simpl.
      by rewrite app_nil_r. }
    apply orb_false_elim in Hinvalid as [Hdir Hisdir].
    apply negb_false_iff in Hdir, Hisdir.
    destruct (filter _ (item :: l)) as [|item' l'] eqn:Hfilter.
    { eexists. split; [reflexivity |]. simpl. rewrite written_app. simpl.
      by rewrite app_nil_r. }
    apply nonempty_true in Hdir.
    destruct Hwarn as [? | [? | ?]]; congruence.
  - intros Hsel Hdir Hisdir. apply nonempty_true in Hdir.
    unfold save_selected, mbind, M_bind, bind, gets.
    destruct (images st) as [|item l] eqn:Himages; [done |].
    rewrite Hdir, Hisdir. simpl.
    destruct (filter _ (item :: l)) as [|item' l'] eqn:Hfilter; [done |].
    simpl. split.
    + intros names Hlist Hfuel. rewrite Hlist. simpl.
      destruct (save_loop_run fuel (Str.strip (save_path_var st)) (item' :: l')
                  (list_to_set names) 0 st)
        as (st' & t & _ & Hrun & Ht & Himg & _ & _ & Hdata & _ & _ & _ & Hcount
            & Hdlg & _).
      { pose proof (size_list_to_set_le names). simpl. lia. }
      rewrite Hrun. simpl.
      eexists _, t, _. split; [reflexivity |]. simpl.
      rewrite Ht, Himg, Himages, <- app_assoc. done.
    + intros e Hlist. by rewrite Hlist.
Qed.

End pipeline.

(** ** The collision rule across a batch *)

(** C1. The collision-avoidance rule of the save pipeline.  With the listing
    [{"a.jpg"}], a suggested name ["a.jpg"] resolves to ["a_1.jpg"] and a
    second ["a.jpg"] of the same batch to ["a_2.jpg"].  In general the
    suggested name, then [base_1], [base_2], ... are tried in increasing
    order and the first one outside the set of claimed names wins; the set
    handed on holds the winner, and in the save loop that happens before the
    write and whatever the write's outcome, so the names of one batch are
    pairwise different and outside the initial listing. *)
Theorem unique_filename_collision_rule :
  (∀ fuel directory, 2 < fuel →
     _unique_filename fuel directory "a.jpg" {["a.jpg"]}
     = Some ("a_1.jpg", {["a_1.jpg"]} ∪ {["a.jpg"]})
     ∧ _unique_filename fuel directory "a.jpg" ({["a_1.jpg"]} ∪ {["a.jpg"]})
       = Some ("a_2.jpg", {["a_2.jpg"]} ∪ ({["a_1.jpg"]} ∪ {["a.jpg"]})))
  ∧ (∀ fuel directory filename (X : gset string), size X < fuel →
       ∃ j, _unique_filename fuel directory filename X
            = Some (candidate_name filename j, {[candidate_name filename j]} ∪ X)
            ∧ (candidate_name filename j ∉ X)
            ∧ ∀ j', j' < j → candidate_name filename j' ∈ X)
  ∧ (∀ (env : Env) fuel target_dir item rest (X : gset string) n st,
       size X < fuel →
       ∃ name, (name ∉ X) ∧
         save_loop fuel target_dir (item :: rest) X n st
         = (r ← open_and_write (os_path.join target_dir name) (data item);
            match r with
            | None => save_loop fuel target_dir rest ({[name]} ∪ X) (S n)
            | Some e =>
                print ("Failed to save " +:+ os_path.join target_dir name
                       +:+ ": " +:+ e);;
                save_loop fuel target_dir rest ({[name]} ∪ X) n
            end) st)
  ∧ (∀ (env : Env) fuel target_dir items (X : gset string) n st,
       size X + List.length items ≤ fuel →
       ∃ n' st' t names,
         save_loop fuel target_dir items X n st = (Returned n', st')
         ∧ trace st' = trace st ++ t
         ∧ (λ w, w.1.1) <$> written t = os_path.join target_dir <$> names
         ∧ List.length names = List.length items
         ∧ NoDup names ∧ Forall (λ name, name ∉ X) names).
Proof.
  split_and!.
  - intros fuel directory Hfuel. split.
    + apply (unique_filename_first_unclaimed fuel directory "a.jpg" _ 1);
        [lia | vm_compute; set_solver |].
      intros [|j'] ?; [vm_compute; set_solver | lia].
    + apply (unique_filename_first_unclaimed fuel directory "a.jpg" _ 2);
        [lia | vm_compute; set_solver |].
      intros [|[|j']] ?; [vm_compute; set_solver .. | lia].
  - intros fuel directory filename X Hfuel.
    destruct (first_unclaimed filename X) as (j & Hj & Hout & Hin).
    exists j. split_and!; [| done | done].
    apply unique_filename_first_unclaimed; [lia | done | done].
  - intros env fuel target_dir item rest X n st Hfuel.
    destruct (first_unclaimed (filename item) X) as (j & Hj & Hout & Hin).
    exists (candidate_name (filename item) j). split; [done |].
    simpl.
    by rewrite (unique_filename_first_unclaimed fuel target_dir _ X j) by (done || lia).
  - intros env fuel target_dir items X n st Hfuel.
    destruct (save_loop_run fuel target_dir items X n st Hfuel)
      as (st' & t & names & Hrun & Ht & _ & _ & _ & Hdata & Hpath & Hnodup & Hfree & _).
    exists (n + List.length (filter (λ w, w.2 = true) (written t))), st', t, names.
    split_and!; try done.
    apply (f_equal List.length) in Hdata. apply (f_equal List.length) in Hpath.
    rewrite !length_fmap in Hdata. rewrite !length_fmap in Hpath. congruence.
Qed.

Lemma unique_filename_collision_rule_witness :
  2 < 3
  ∧ _unique_filename 3 "/out" "a.jpg" {["a.jpg"]}
    = Some ("a_1.jpg", {["a_1.jpg"]} ∪ {["a.jpg"]}).
Proof.
  split; [lia |].
  apply (proj1 unique_filename_collision_rule 3 "/out"). lia.
Defined.

(** The example of C1 end to end: two selected items named ["a.jpg"], a
    directory [/out] that lists ["a.jpg"], and a first write that fails.
    The second item still gets ["a_2.jpg"]. *)
Example save_batch_example :
  let st := example_state [example_item "http://x.test/a.jpg" "a.jpg" true;
                           example_item "http://y.test/a.jpg" "a.jpg" true] "" in
  (save_selected 3 st).1 = Returned ()
  ∧ written (trace (save_selected 3 st).2)
    = [("/out/a_1.jpg", png, false); ("/out/a_2.jpg", png, true)]
  ∧ dialogs (trace (save_selected 3 st).2)
    = [(showinfo, "Info", "Saved 1 image(s) to:" +:+ newline +:+ "/out")].
Proof. vm_compute. done. Qed.

(** ** The properties at concrete inputs *)

(** The example of C3 end to end: scanning the example page requests the
    page and then the two candidates; the tag without [src] is skipped. *)
Example scan_example :
  let st := example_state [] "http://x.test/dir/" in
  (scan_images st).1 = Returned ()
  ∧ requested (trace (scan_images st).2)
    = ["http://x.test/dir/"; "http://x.test/a.png"; "http://x.test/dir/b.png"]
  ∧ url <$> images (scan_images st).2 = ["http://x.test/a.png"]
  ∧ filename <$> images (scan_images st).2 = ["a.png"].
Proof. vm_compute. done. Qed.

Lemma scan_blank_url_frame_witness :
  let st := example_state [example_item "http://x.test/a.png" "a.png" false] "  " in
  Str.strip (url_var st) = ""
  ∧ ∃ st',
      scan_images st = (Returned (), st')
      ∧ images st' = images st
      ∧ url_var st' = url_var st ∧ save_path_var st' = save_path_var st
      ∧ world st' = world st
      ∧ trace st' = trace st ++ [Messagebox showwarning "Warning"
                                   "Please input URL (copy from Chrome address bar)."].
Proof.
  split; [reflexivity |].
  apply (scan_blank_url_frame (env := example_env)). reflexivity.
Defined.

Lemma scan_page_fetch_failure_witness :
  let st := example_state [example_item "http://x.test/a.png" "a.png" true]
              "nowhere.test" in
  Str.strip (url_var st) ≠ ""
  ∧ ∃ st',
      scan_images st = (Returned (), st')
      ∧ images st' = []
      ∧ world st' = example_world
      ∧ trace st'
        = trace st
          ++ [HttpGet "http://nowhere.test" false;
              Messagebox showerror "Error"
                ("Failed to load page:" +:+ newline
                 +:+ "404 Client Error: Not Found for url: http://nowhere.test")].
Proof.
  split; [vm_compute; discriminate |].
  apply (scan_page_fetch_failure (env := example_env)
           (example_state [example_item "http://x.test/a.png" "a.png" true]
              "nowhere.test")).
  - vm_compute. discriminate.
  - reflexivity.
Defined.

Lemma scan_requests_page_url_witness :
  let st := example_state [] " x.test/dir/ " in
  Str.strip (url_var st) ≠ ""
  ∧ ∃ ok t, trace (scan_images st).2
            = trace st ++ HttpGet "http://x.test/dir/" ok :: t.
Proof.
  split; [vm_compute; discriminate |].
  apply (scan_requests_page_url (env := example_env)
           (example_state [] " x.test/dir/ ")).
  vm_compute. discriminate.
Defined.

(** C2, as first stated, fails: a URL with a scheme other than [http] or
    [https] has [http://] put in front of it, and a URL with a scheme and
    surrounding blanks is requested stripped, not unchanged. *)
Lemma scan_prefixes_other_schemes :
  let st := example_state [] "ftp://x.test/a.png" in
  let st' := example_state [] " http://x.test/dir/" in
  (url_var st ≠ "" ∧ has_scheme (url_var st) = true
   ∧ head (requested (trace (scan_images st).2)) = Some "http://ftp://x.test/a.png"
   ∧ "http://ftp://x.test/a.png" ≠ url_var st)
  ∧ (url_var st' ≠ "" ∧ has_scheme (url_var st') = true
     ∧ head (requested (trace (scan_images st').2)) = Some "http://x.test/dir/"
     ∧ "http://x.test/dir/" ≠ url_var st').
Proof. vm_compute. by split_and!. Qed.


Lemma save_selected_outcomes_witness :
  (filter (λ img, selected_var img = true) (images unlistable_state) ≠ []
   ∧ isdir "/out" (world unlistable_state) = true
   ∧ listdir "/out" (world unlistable_state) = inl "Permission denied"
   ∧ save_selected 4 unlistable_state
     = (Raised "Permission denied", unlistable_state))
  ∧ let st := example_state [example_item "http://x.test/a.png" "a.jpg" true;
                             example_item "http://x.test/b" "b.jpg" false;
                             example_item "http://x.test/c/a.jpg" "a.jpg" true] "" in
    ∃ st' t k,
      save_selected 4 st = (Returned (), st')
      ∧ trace st' = trace st ++ t
                    ++ [Messagebox showinfo "Info"
                          ("Saved " +:+ pretty k +:+ " image(s) to:"
                           +:+ newline +:+ "/out")]
      ∧ (λ w, w.1.2) <$> written t = [png; png]
      ∧ k = List.length (filter (λ w, w.2 = true) (written t))
      ∧ List.length (printed t) + k = 2
      ∧ dialogs t = []
      ∧ images st' = images st.
Proof.
  assert (Hsel : filter (λ img, selected_var img = true) (images unlistable_state)
                 ≠ []) by (simpl; discriminate).
  assert (Hdir : Str.strip (save_path_var unlistable_state) ≠ "")
    by (simpl; discriminate).
  split.
  - split_and!; [exact Hsel | reflexivity | reflexivity |].
    exact (proj2 (proj2 (save_selected_outcomes (env := unlistable_env) 4
                           unlistable_state) Hsel Hdir eq_refl)
             "Permission denied" eq_refl).
  - apply (proj1 (proj2 (save_selected_outcomes (env := example_env) 4
                    (example_state [example_item "http://x.test/a.png" "a.jpg" true;
                                    example_item "http://x.test/b" "b.jpg" false;
                                    example_item "http://x.test/c/a.jpg" "a.jpg" true]
                       "")) ltac:(simpl; discriminate) ltac:(simpl; discriminate)
                    eq_refl))
      with (names := ["a.jpg"]).
    + reflexivity.
    + simpl. lia.
Defined.

(** The failing input of C3 end to end: the page is fetched, [urljoin]
    raises on the first source, and the scan ends there: no image is
    requested, the registry stays empty and no dialog is shown. *)
Example scan_broken_source_example :
  let st := example_state [] "http://x.test/broken/" in
  (scan_images st).1 = Raised "Invalid IPv6 URL"
  ∧ requested (trace (scan_images st).2) = ["http://x.test/broken/"]
  ∧ url <$> images (scan_images st).2 = []
  ∧ dialogs (trace (scan_images st).2) = [].
Proof. vm_compute. done. Qed.

(** * Further properties of the pipeline *)

(** ** Occurrences of a character *)

Lemma contains_false (c : ascii) (s : string) :
  Str.contains c s = false ↔ Str.find_opt c s = None.
Proof.
  unfold Str.contains. rewrite bool_decide_eq_false, <- eq_None_not_Some. done.
Qed.

Lemma contains_true (c : ascii) (s : string) :
  Str.contains c s = true ↔ is_Some (Str.find_opt c s).
Proof. unfold Str.contains. by rewrite bool_decide_eq_true. Qed.

Lemma find_opt_app_None (c : ascii) (a b : string) :
  Str.find_opt c (a +:+ b) = None
  ↔ Str.find_opt c a = None ∧ Str.find_opt c b = None.
Proof.
  induction a as [|x a IH].
  - change ("" +:+ b) with b. simpl. tauto.
  - change (String x a +:+ b) with (String x (a +:+ b)). simpl.
    destruct (decide (x = c)); [split; [done | by intros [? _]] |].
    rewrite !fmap_None. exact IH.
Qed.

Lemma find_opt_app_Some (c : ascii) (a b : string) :
  is_Some (Str.find_opt c b) → is_Some (Str.find_opt c (a +:+ b)).
Proof.
  intros Hb. destruct (Str.find_opt c (a +:+ b)) eqn:H; [done |].
  apply find_opt_app_None in H as [_ H]. rewrite H in Hb. by destruct Hb.
Qed.

Lemma rfind_opt_None (c : ascii) (s : string) :
  Str.rfind_opt c s = None → Str.find_opt c s = None.
Proof.
  induction s as [|x s IH]; simpl; [done |].
  destruct (Str.rfind_opt c s); [done |].
  destruct (decide (x = c)); [done |]. intros _. by rewrite IH.
Qed.

Lemma rfind_opt_Some (c : ascii) (s : string) (i : nat) :
  Str.rfind_opt c s = Some i → Str.find_opt c (Str.drop (S i) s) = None.
Proof.
  revert i. induction s as [|x s IH]; intros i; simpl; [done |].
  destruct (Str.rfind_opt c s) as [j |] eqn:Hs.
  - intros [= <-]. by apply IH.
  - destruct (decide (x = c)); [| done]. intros [= <-].
    destruct s; by apply rfind_opt_None.
Qed.

Lemma basename_no_separator (p : string) :
  Str.contains "/" (os_path.basename p) = false.
Proof.
  apply contains_false. unfold os_path.basename, Str.rfind.
  destruct (Str.rfind_opt "/" p) as [i |] eqn:Hp; simpl.
  - replace (Z.to_nat (Z.of_nat i + 1)) with (S i) by lia.
    by apply rfind_opt_Some.
  - by apply rfind_opt_None.
Qed.

(** The decimal text of a number has no path separator. *)
Lemma pretty_N_go_no_separator (x : N) (s : string) :
  Str.find_opt "/" s = None → Str.find_opt "/" (pretty_N_go x s) = None.
Proof.
  revert s. induction (N.lt_wf_0 x) as [x _ IH]; intros s Hs.
  assert (x = 0 ∨ 0 < x)%N as [-> | Hpos] by lia.
  - by rewrite pretty_N_go_0.
  - rewrite pretty_N_go_step by done. apply IH.
    { by apply N.div_lt. }
    simpl. rewrite Hs. unfold pretty_N_char. by repeat case_match.
Qed.

Lemma pretty_nat_no_separator (k : nat) :
  Str.find_opt "/" (pretty k) = None.
Proof.
  unfold pretty, pretty_nat, pretty, pretty_N. case_decide; [done |].
  by apply pretty_N_go_no_separator.
Qed.

Lemma candidate_name_no_separator (name : string) (k : nat) :
  Str.contains "/" name = false →
  Str.contains "/" (candidate_name name k) = false.
Proof.
  intros Hname. destruct k as [|k]; [done |].
  destruct (os_path.splitext name) as [base ext] eqn:Hsplit.
  rewrite (candidate_name_succ _ _ _ _ Hsplit).
  apply contains_false in Hname.
  rewrite <- (splitext_app _ _ _ Hsplit) in Hname.
  apply find_opt_app_None in Hname as [Hbase Hext].
  apply contains_false. rewrite !find_opt_app_None.
  split_and!; [done | done | apply pretty_nat_no_separator | done].
Qed.

(** [os.path.join] with a name that has no separator puts the name in the
    directory. *)
Lemma join_plain (directory name : string) :
  Str.contains "/" name = false →
  os_path.join directory name
  = directory +:+ (if negb (Str.nonempty directory) || Str.endswith "/" directory
                   then "" else "/") +:+ name.
Proof.
  intros Hname. apply contains_false in Hname. unfold os_path.join.
  assert (Hstart : Str.startswith "/" name = false).
  { destruct name as [|c name]; [done |]. simpl in *.
    destruct (decide (c = "/"%char)) as [-> | Hc]; [done |].
    unfold Str.startswith.
    destruct (String.prefix "/" (String c name)) eqn:Hpre; [| done].
    apply String.prefix_correct in Hpre. simpl in Hpre. congruence. }
  rewrite Hstart. by destruct (negb _ || _).
Qed.

Section registry.

Context `{env : Env}.

Implicit Types (st : State) (t : list Event).

#[local] Arguments scan_loop : simpl never.

(** ** Invariants of the registry *)

(** The item [_download_and_add_image] appends has a well-formed name. *)
Lemma download_and_add_image_named (image_url : string) st :
  images (_download_and_add_image image_url st).2 = images st
  ∨ ∃ item, images (_download_and_add_image image_url st).2 = images st ++ [item]
            ∧ well_named (filename item).
Proof.
  unfold _download_and_add_image, http_get, open_thumbnail.
  unfold mbind, M_bind, bind, gets. simpl.
  destruct (requests_get image_url (world st)) as [[e | resp] w1]; simpl;
    [by left |].
  destruct (make_thumbnail (content resp) w1) as [[e | ph] w2]; simpl;
    [by left |].
  destruct (urlparse image_url) as [e | [[[[[? ?] path] ?] ?] ?]]; simpl;
    [by left |].
  right. eexists. split; [reflexivity |]. simpl.
  pose proof (basename_no_separator path) as Hsep.
  destruct (Str.nonempty (os_path.basename path)) eqn:Hne; simpl.
  - destruct (Str.contains "." (os_path.basename path)) eqn:Hdot; simpl.
    + split_and!; [by apply nonempty_true | done | done].
    + split_and!.
      * by destruct (os_path.basename path).
      * apply contains_true, find_opt_app_Some. by eexists.
      * apply contains_false, find_opt_app_None. split; [by apply contains_false | done].
  - by split_and!.
Qed.

(** A property of the registry that every download keeps is kept by the
    scan loop. *)
Lemma scan_loop_invariant (P : list ImageItem → Prop) (u : string)
    (img_tags : list (gmap string string)) (n : nat) st :
  (∀ image_url st0,
     P (images st0) → P (images (_download_and_add_image image_url st0).2)) →
  P (images st) → P (images (scan_loop u img_tags n st).2).
Proof.
  intros Hstep. revert n st. induction img_tags as [|img rest IH]; intros n st HP.
  { done. }
  rewrite scan_loop_cons.
  destruct (img !! "src") as [src |]; [| by apply IH].
  destruct (Str.nonempty src); [| by apply IH].
  destruct (urljoin u src) as [e | img_url]; [done |].
  specialize (Hstep img_url st HP).
  destruct (_download_and_add_image img_url st) as [[ok | e |] st1]; simpl in *;
    [by apply IH | done | done].
Qed.

(** ... and holds after a scan of a non-blank URL if it holds of the empty
    registry. *)
Lemma scan_images_invariant (P : list ImageItem → Prop) st :
  (∀ image_url st0,
     P (images st0) → P (images (_download_and_add_image image_url st0).2)) →
  P [] →
  Str.strip (url_var st) ≠ "" →
  P (images (scan_images st).2).
Proof.
  intros Hstep Hnil Hurl. apply nonempty_true in Hurl.
  unfold scan_images, http_get, mbind, M_bind, bind, gets.
  rewrite Hurl. simpl.
  destruct (Str.startswith "http://" _ || Str.startswith "https://" _); simpl.
  all: destruct (requests_get _ (world st)) as [[e | resp] w1]; simpl; [done |].
  all: destruct (find_all_img (text resp)) as [|img l]; simpl; [done |].
  all: match goal with |- context [scan_loop ?v ?tags 0 ?s] =>
         pose proof (scan_loop_invariant P v tags 0 s Hstep Hnil) as Hloop;
         destruct (scan_loop v tags 0 s) as [[k | e |] st'] end.
  all: simpl in *; try done.
  all: by destruct (decide (k = 0)).
Qed.

(** X1. After a scan of a non-blank URL every item of the registry has a
    well-formed suggested file name: not empty, with a dot in it, and
    without a path separator, whatever the image URLs were. *)
Theorem scan_names_well_formed st :
  Str.strip (url_var st) ≠ "" →
  Forall (λ item, well_named (filename item)) (images (scan_images st).2).
Proof.
  intros Hurl.
  apply (scan_images_invariant (Forall (λ item, well_named (filename item))));
    [| constructor | done].
  intros image_url st0 HP.
  destruct (download_and_add_image_named image_url st0)
    as [-> | (item & -> & Hitem)]; [done |].
  apply Forall_app. split; [done |]. by constructor.
Qed.



(** X3. A scan never writes a file and never touches the save path; it
    shows at most one dialog.  This holds however the scan ends. *)
Theorem scan_images_frame st :
  save_path_var (scan_images st).2 = save_path_var st
  ∧ ∃ t, trace (scan_images st).2 = trace st ++ t
         ∧ written t = []
         ∧ List.length (dialogs t) ≤ 1.
Proof.
  unfold scan_images, http_get, mbind, M_bind, bind, gets.
  destruct (Str.nonempty (Str.strip (url_var st))); simpl;
    [| split; [done |]; by eexists [_]].
  destruct (Str.startswith "http://" _ || Str.startswith "https://" _); simpl.
  all: destruct (requests_get _ (world st)) as [[e | resp] w1]; simpl.
  all: try (split; [done |]; rewrite <- app_assoc; by eexists [_; _]).
  all: destruct (find_all_img (text resp)) as [|img l]; simpl.
  all: try (split; [done |]; rewrite <- app_assoc; by eexists [_; _]).
  all: match goal with |- context [scan_loop ?v ?tags 0 ?s] =>
         destruct (scan_loop_run v tags 0 s)
           as (o & st' & t & new & -> & Ht & _ & _ & Hs & Hdlg & Hwr & _) end.
  all: simpl in Ht, Hs; rewrite <- app_assoc in Ht.
  all: destruct o as [k | e |]; simpl; [destruct (decide (k = 0)); simpl | |].
  all: split; [done |].
  all: rewrite Ht; try rewrite <- app_assoc.
  all: eexists; split; [reflexivity |].
  all: rewrite ?written_app, ?dialogs_app; simpl.
  all: rewrite ?written_app, ?dialogs_app, ?Hwr, ?Hdlg; simpl; split; [done | lia].
Qed.

(** X4. When a scan of a non-blank URL returns, it has shown exactly one
    dialog and the registry holds what this scan loaded and nothing older:
    every item was requested in this scan and is selected.  A registry that
    is not empty is announced with its exact size. *)
Theorem scan_reports_registry st st' :
  Str.strip (url_var st) ≠ "" →
  scan_images st = (Returned (), st') →
  ∃ t d,
    trace st' = trace st ++ t
    ∧ dialogs t = [d]
    ∧ Forall (λ item, url item ∈ requested t ∧ selected_var item = true)
        (images st')
    ∧ (images st' ≠ [] →
       d = (showinfo, "Info",
            "Found and loaded " +:+ pretty (List.length (images st'))
            +:+ " images into RAM (cache).")).
Proof.
  intros Hurl. apply nonempty_true in Hurl.
  unfold scan_images, http_get, mbind, M_bind, bind, gets.
  rewrite Hurl. simpl.
  destruct (Str.startswith "http://" _ || Str.startswith "https://" _); simpl.
  all: destruct (requests_get _ (world st)) as [[e | resp] w1]; simpl.
  all: try (intros [= <-]; simpl; rewrite <- app_assoc;
            eexists [_; _], _; by split_and!).
  all: destruct (find_all_img (text resp)) as [|img l]; simpl.
  all: try (intros [= <-]; simpl; rewrite <- app_assoc;
            eexists [_; _], _; by split_and!).
  all: match goal with |- context [scan_loop ?v ?tags 0 ?s] =>
         destruct (scan_loop_run v tags 0 s)
           as (o & st1 & t & new & -> & Ht & Himg & _ & _ & Hdlg & _ & Hnew & _
               & Hend) end.
  all: simpl in Ht, Himg; rewrite <- app_assoc in Ht.
  all: destruct o as [k | e |]; simpl; [| done | done].
  all: destruct Hend as (-> & _); simpl.
  all: destruct (decide (List.length new = 0)) as [Hlen | Hlen]; simpl.
  all: intros [= <-]; simpl; rewrite Ht, Himg, <- app_assoc.
  all: eexists (_ :: t ++ [_]), _; split; [reflexivity |].
  all: simpl; rewrite dialogs_app, Hdlg; simpl.
  all: split_and!; try done.
  all: try (eapply Forall_impl; [exact Hnew |]; intros item [? ?]; split; [| done];
            simpl; rewrite requested_app; apply elem_of_cons; right;
            apply elem_of_app; by left).
  all: by destruct new.
Qed.

(** ** Stripping *)

Lemma rstrip_idemp (P : ascii → bool) (s : string) :
  Str.rstrip P (Str.rstrip P s) = Str.rstrip P s.
Proof.
  induction s as [|a s IH]; simpl; [done |].
  destruct (Str.rstrip P s) as [|b r] eqn:Hs.
  - destruct (P a) eqn:Ha; simpl; [done | by rewrite Ha].
  - change (Str.rstrip P (String a (String b r)))
      with (match Str.rstrip P (String b r) with
            | EmptyString => if P a then EmptyString else String a EmptyString
            | r' => String a r'
            end).
    by rewrite IH.
Qed.

Lemma rstrip_tail (P : ascii → bool) (a : ascii) (s : string) :
  Str.rstrip P (String a s) = String a s → s ≠ "" → Str.rstrip P s = s.
Proof.
  simpl. destruct (Str.rstrip P s) as [|b r].
  - destruct (P a); [done |]. intros [= <-]. done.
  - by intros [= <-].
Qed.

Lemma rstrip_lstrip (P : ascii → bool) (s : string) :
  Str.rstrip P s = s → Str.rstrip P (Str.lstrip P s) = Str.lstrip P s.
Proof.
  induction s as [|a s IH]; [done |]. intros Hfix.
  simpl Str.lstrip. destruct (P a); [| done].
  destruct s as [|b s]; [done |]. apply IH. by apply (rstrip_tail P a).
Qed.

Lemma rstrip_strip (s : string) : Str.rstrip Str.isspace (Str.strip s) = Str.strip s.
Proof. apply rstrip_lstrip, rstrip_idemp. Qed.

Lemma rstrip_app (P : ascii → bool) (a s : string) :
  Str.rstrip P s = s → s ≠ "" → Str.rstrip P (a +:+ s) = a +:+ s.
Proof.
  intros Hfix Hne. induction a as [|c a IH].
  - done.
  - change (String c a +:+ s) with (String c (a +:+ s)). simpl. rewrite IH.
    destruct a; [by destruct s | done].
Qed.

(** The URL a scan requests is already in the form a scan leaves in the
    URL field. *)
Lemma strip_http_prefix (s : string) :
  Str.strip s ≠ "" → Str.strip ("http://" +:+ Str.strip s) = "http://" +:+ Str.strip s.
Proof.
  intros Hne. unfold Str.strip at 1, Str.strip_chars.
  by rewrite (rstrip_app _ "http://" _ (rstrip_strip s) Hne).
Qed.

(** The URL field after a scan. *)
Lemma scan_images_url_var st :
  let u := Str.strip (url_var st) in
  url_var (scan_images st).2
  = if Str.nonempty u
       && negb (Str.startswith "http://" u || Str.startswith "https://" u)
    then "http://" +:+ u else url_var st.
Proof.
  unfold scan_images, http_get, mbind, M_bind, bind, gets.
  destruct (Str.nonempty (Str.strip (url_var st))) eqn:Hurl; simpl; [| done].
  destruct (Str.startswith "http://" _ || Str.startswith "https://" _); simpl.
  all: destruct (requests_get _ (world st)) as [[e | resp] w1]; simpl; [done |].
  all: destruct (find_all_img (text resp)) as [|img l]; simpl; [done |].
  all: match goal with |- context [scan_loop ?v ?tags 0 ?s] =>
         destruct (scan_loop_run v tags 0 s)
           as (o & st' & t & new & -> & _ & _ & Hu & _) end.
  all: simpl in Hu.
  all: destruct o as [k | e |]; simpl; [destruct (decide (k = 0)); simpl | |].
  all: done.
Qed.

(** X5. Scanning does not change the address a scan requests: the URL
    field a scan leaves behind leads the next scan to the same page URL
    (the [http://] the first scan put in front is not added again). *)
Theorem scan_keeps_page_url st : page_url (scan_images st).2 = page_url st.
Proof.
  unfold page_url. rewrite scan_images_url_var.
  destruct (Str.nonempty (Str.strip (url_var st))) eqn:Hne; cbn [andb]; [| done].
  destruct (Str.startswith "http://" (Str.strip (url_var st))
            || Str.startswith "https://" (Str.strip (url_var st))) eqn:Hpre;
    cbn [negb]; [by rewrite Hpre |].
  apply nonempty_true in Hne. rewrite (strip_http_prefix _ Hne).
  assert (Hhttp : ∀ u, Str.startswith "http://" ("http://" +:+ u) = true).
  { intros u. unfold Str.startswith. by destruct u. }
  by rewrite Hhttp.
Qed.

(** ** Saving: what is written, and what is left alone *)

Lemma unique_filename_shape (fuel : nat) (directory name0 name : string)
    (X X' : gset string) :
  _unique_filename fuel directory name0 X = Some (name, X') →
  X' = {[name]} ∪ X.
Proof.
  unfold _unique_filename. destruct (os_path.splitext name0) as [base ext].
  destruct (unique_loop _ _ _ _ _ _); [| done]. by intros [= <- <-].
Qed.

(** One iteration of the save loop, whatever the fuel. *)
Lemma save_loop_unfold (fuel : nat) (target_dir : string) (item : ImageItem)
    (rest : list ImageItem) (X : gset string) (n : nat) st :
  save_loop fuel target_dir (item :: rest) X n st
  = match _unique_filename fuel target_dir (filename item) X with
    | None => (OutOfFuel, st)
    | Some (name, X') =>
        match write_file (os_path.join target_dir name) (data item) (world st) with
        | (None, w') =>
            save_loop fuel target_dir rest X' (S n)
              (log [FileWrite (os_path.join target_dir name) (data item) true]
                 {| images := images st; url_var := url_var st;
                    save_path_var := save_path_var st; world := w';
                    trace := trace st |})
        | (Some e, w') =>
            save_loop fuel target_dir rest X' n
              (log [FileWrite (os_path.join target_dir name) (data item) false;
                    Print ("Failed to save " +:+ os_path.join target_dir name
                           +:+ ": " +:+ e)]
                 {| images := images st; url_var := url_var st;
                    save_path_var := save_path_var st; world := w';
                    trace := trace st |})
        end
    end.
Proof.
  simpl. destruct (_unique_filename _ _ _ _) as [[name X'] |]; [| done].
  unfold open_and_write, mbind, M_bind, bind, gets. simpl.
  destruct (write_file _ _ _) as [[e |] w']; simpl; [| done].
  by rewrite log_log.
Qed.

#[local] Arguments save_loop : simpl never.

(** The save loop leaves the registry and the two text fields alone and
    makes no request and shows no dialog, also when it runs out of fuel. *)
Lemma save_loop_frame (fuel : nat) (target_dir : string)
    (items : list ImageItem) (X : gset string) (n : nat) st :
  let st' := (save_loop fuel target_dir items X n st).2 in
  images st' = images st ∧ url_var st' = url_var st
  ∧ save_path_var st' = save_path_var st
  ∧ ∃ t, trace st' = trace st ++ t ∧ requested t = [] ∧ dialogs t = [].
Proof.
  revert X n st. induction items as [|item rest IH]; intros X n st.
  { simpl. split_and!; try done. exists []. by rewrite app_nil_r. }
  rewrite save_loop_unfold.
  destruct (_unique_filename _ _ _ _) as [[name X'] |].
  2:{ simpl. split_and!; try done. exists []. by rewrite app_nil_r. }
  destruct (write_file _ _ _) as [[e |] w'].
  all: match goal with |- context [save_loop _ _ _ ?Y ?k ?s] =>
         destruct (IH Y k s) as (Himg & Hu & Hs & t & Ht & Hreq & Hdlg) end.
  all: simpl in *; split_and!; try done.
  all: rewrite Ht, <- app_assoc; eexists; split; [reflexivity |].
  all: by rewrite requested_app, dialogs_app, Hreq, Hdlg.
Qed.

(** X6. Saving never changes the registry (items, order, flags), the URL
    field or the save path, makes no network request and shows at most one
    dialog.  This holds for every state and however the save ends. *)
Theorem save_selected_frame (fuel : nat) st :
  let st' := (save_selected fuel st).2 in
  images st' = images st ∧ url_var st' = url_var st
  ∧ save_path_var st' = save_path_var st
  ∧ ∃ t, trace st' = trace st ++ t ∧ requested t = []
         ∧ List.length (dialogs t) ≤ 1.
Proof.
  unfold save_selected, mbind, M_bind, bind, gets.
  destruct (images st) as [|item l] eqn:Himages; simpl.
  { split_and!; try done. eexists. split_and!; [reflexivity | done | simpl; lia]. }
  destruct (negb _ || negb _); simpl.
  { split_and!; try done. eexists. split_and!; [reflexivity | done | simpl; lia]. }
  destruct (filter _ (item :: l)) as [|item' l'] eqn:Hfilter; simpl.
  { split_and!; try done. eexists. split_and!; [reflexivity | done | simpl; lia]. }
  destruct (listdir _ _) as [e | names]; simpl.
  { split_and!; try done. exists []. rewrite app_nil_r.
    split_and!; [done | done | simpl; lia]. }
  match goal with |- context [save_loop fuel ?d ?its ?Y 0 st] =>
    pose proof (save_loop_frame fuel d its Y 0 st) as Hframe;
    destruct (save_loop fuel d its Y 0 st) as [[k | e |] st'] end.
  all: simpl in *.
  all: destruct Hframe as (Himg & Hu & Hs & t & Ht & Hreq & Hdlg).
  all: split_and!; try congruence.
  - rewrite Ht, <- app_assoc. eexists. split; [reflexivity |].
    rewrite requested_app, dialogs_app, Hreq, Hdlg. by split.
  - exists t. rewrite Hdlg. split_and!; [done | done | simpl; lia].
  - exists t. rewrite Hdlg. split_and!; [done | done | simpl; lia].
Qed.

(** Item by item: the k-th write carries the k-th item's bytes under one of
    the candidate names of that item, a name that was not in the set. *)
Lemma save_loop_writes (fuel : nat) (target_dir : string)
    (items : list ImageItem) (X : gset string) (n : nat) st :
  size X + List.length items ≤ fuel →
  ∃ k st' t,
    save_loop fuel target_dir items X n st = (Returned k, st')
    ∧ trace st' = trace st ++ t
    ∧ dialogs t = []
    ∧ Forall2 (λ w item,
                 w.1.2 = data item
                 ∧ ∃ j, w.1.1 = os_path.join target_dir
                                  (candidate_name (filename item) j)
                        ∧ candidate_name (filename item) j ∉ X)
        (written t) items.
Proof.
  revert X n st. induction items as [|item rest IH]; intros X n st Hfuel.
  { exists n, st, []. rewrite app_nil_r. split_and!; try done; constructor. }
  simpl in Hfuel.
  destruct (first_unclaimed (filename item) X) as (j & Hj & Hout & Hin).
  rewrite save_loop_unfold.
  rewrite (unique_filename_first_unclaimed fuel target_dir _ X j)
    by (done || lia).
  assert (Hsize : size ({[candidate_name (filename item) j]} ∪ X) = S (size X)).
  { rewrite size_union by set_solver. by rewrite size_singleton. }
  destruct (write_file _ _ _) as [[e |] w'].
  all: match goal with |- context [save_loop _ _ _ ?Y ?m ?s] =>
         destruct (IH Y m s) as (k & st' & t & -> & Ht & Hdlg & Hall); [lia |] end.
  all: simpl in Ht; rewrite <- app_assoc in Ht.
  all: eexists k, st', _; split; [reflexivity |]; split; [exact Ht |].
  all: unfold written, dialogs in *; simpl; split; [done |].
  all: constructor; [split; [done |]; by exists j |].
  all: eapply Forall2_impl; [exact Hall |].
  all: intros w item' (Hdata & j' & Hpath & Hfree); split; [done |].
  all: exists j'; split; [done |]; set_solver.
Qed.

(** A save with something selected, a valid directory and a listing. *)
Lemma save_selected_run (fuel : nat) st (names : list string) :
  let selected_items := filter (λ img, selected_var img = true) (images st) in
  let target_dir := Str.strip (save_path_var st) in
  selected_items ≠ [] → target_dir ≠ "" →
  isdir target_dir (world st) = true →
  listdir target_dir (world st) = inr names →
  List.length names + List.length selected_items ≤ fuel →
  ∃ st' t d,
    save_selected fuel st = (Returned (), st')
    ∧ trace st' = trace st ++ t ++ [d]
    ∧ dialogs t = []
    ∧ Forall2 (λ w item,
                 w.1.2 = data item
                 ∧ ∃ j, w.1.1 = os_path.join target_dir
                                  (candidate_name (filename item) j)
                        ∧ candidate_name (filename item) j ∉ names)
        (written t) selected_items.
Proof.
  intros selected_items target_dir. subst selected_items target_dir.
  intros Hsel Hdir Hisdir Hlist Hfuel. apply nonempty_true in Hdir.
  unfold save_selected, mbind, M_bind, bind, gets.
  destruct (images st) as [|item l] eqn:Himages; [done |].
  rewrite Hdir, Hisdir. simpl.
  destruct (filter _ (item :: l)) as [|item' l'] eqn:Hfilter; [done |].
  simpl. rewrite Hlist. simpl.
  destruct (save_loop_writes fuel (Str.strip (save_path_var st)) (item' :: l')
              (list_to_set names) 0 st)
    as (k & st' & t & Hrun & Ht & Hdlg & Hall).
  { pose proof (size_list_to_set_le names). lia. }
  rewrite Hrun. simpl.
  eexists _, t, _. split; [reflexivity |]. simpl.
  rewrite Ht, <- app_assoc. split_and!; try done.
  eapply Forall2_impl; [exact Hall |].
  intros w it (Hdata & j & Hpath & Hfree). split; [done |].
  exists j. split; [done |]. by rewrite elem_of_list_to_set in Hfree.
Qed.

(** X7. In a save, every file written is named after its item: the k-th
    write carries the bytes of the k-th selected item, under that item's
    suggested name or the name with [_j] put before the extension, and never
    under a name the directory listing holds.  When the suggested name has
    no path separator, as every scanned name has, the file lies directly in
    the target directory. *)
Theorem save_selected_paths (fuel : nat) st (names : list string) :
  let selected_items := filter (λ img, selected_var img = true) (images st) in
  let target_dir := Str.strip (save_path_var st) in
  selected_items ≠ [] → target_dir ≠ "" →
  isdir target_dir (world st) = true →
  listdir target_dir (world st) = inr names →
  List.length names + List.length selected_items ≤ fuel →
  ∃ st' t d,
    save_selected fuel st = (Returned (), st')
    ∧ trace st' = trace st ++ t ++ [d]
    ∧ Forall2 (λ w item,
                 w.1.2 = data item
                 ∧ ∃ j, let name := candidate_name (filename item) j in
                        w.1.1 = os_path.join target_dir name
                        ∧ (name ∉ names)
                        ∧ (Str.contains "/" (filename item) = false →
                           Str.contains "/" name = false
                           ∧ w.1.1 = target_dir
                                     +:+ (if Str.endswith "/" target_dir
                                          then "" else "/")
                                     +:+ name))
        (written t) selected_items.
Proof.
  intros selected_items target_dir Hsel Hdir Hisdir Hlist Hfuel.
  destruct (save_selected_run fuel st names Hsel Hdir Hisdir Hlist Hfuel)
    as (st' & t & d & Hrun & Ht & _ & Hall).
  exists st', t, d. split_and!; [done | done |].
  eapply Forall2_impl; [exact Hall |].
  intros w item (Hdata & j & Hpath & Hfree). split; [done |].
  exists j. simpl. split_and!; [done | done |].
  intros Hplain. pose proof (candidate_name_no_separator _ j Hplain) as Hname.
  split; [done |]. rewrite Hpath, (join_plain _ _ Hname).
  fold target_dir. apply nonempty_true in Hdir. fold target_dir in Hdir.
  by rewrite Hdir.
Qed.

(** ** Selection and saving together *)

Lemma set_selected_twice (b b' : bool) (l : list ImageItem) :
  set_selected b <$> (set_selected b' <$> l) = set_selected b <$> l.
Proof. rewrite <- list_fmap_compose. by apply list_fmap_ext. Qed.

Lemma filter_selected_all (l : list ImageItem) :
  filter (λ img, selected_var img = true) (set_selected true <$> l)
  = set_selected true <$> l.
Proof.
  induction l as [|item l IH]; [done |].
  rewrite fmap_cons, filter_cons_True by done. by rewrite IH.
Qed.

Lemma filter_selected_none (l : list ImageItem) :
  filter (λ img, selected_var img = true) (set_selected false <$> l) = [].
Proof.
  induction l as [|item l IH]; [done |].
  rewrite fmap_cons, filter_cons_False by done. exact IH.
Qed.

(** X8. The two selection commands only set flags, and the last one wins:
    select-all after unselect-all is select-all, unselect-all after
    select-all is unselect-all, and each is idempotent.  Neither touches
    the world, the trace or the text fields, nor the number, order, URLs,
    bytes and names of the items. *)
Theorem selection_composes st :
  (select_all;; unselect_all) st = unselect_all st
  ∧ (unselect_all;; select_all) st = select_all st
  ∧ (select_all;; select_all) st = select_all st
  ∧ (unselect_all;; unselect_all) st = unselect_all st
  ∧ (∀ st', st' = (select_all st).2 ∨ st' = (unselect_all st).2 →
       world st' = world st ∧ trace st' = trace st
       ∧ url_var st' = url_var st ∧ save_path_var st' = save_path_var st
       ∧ url <$> images st' = url <$> images st
       ∧ data <$> images st' = data <$> images st
       ∧ filename <$> images st' = filename <$> images st).
Proof.
  unfold select_all, unselect_all, mbind, M_bind, bind, gets, set_images. simpl.
  rewrite !set_selected_twice. split_and!; try done.
  intros st' [-> | ->]; simpl; rewrite <- !list_fmap_compose; by split_and!.
Qed.

(** X9. Selection and saving composed, for a registry that is not empty
    and a valid target directory.  After unselect-all the save writes
    nothing and warns that no image is selected; the directory is not even
    listed.  After select-all the save lists the directory: when the
    listing returns it writes every item of the registry, in order; when
    the listing raises, the save ends with that exception, every item
    selected, nothing written and nothing shown. *)
Theorem save_after_selection (fuel : nat) st :
  let target_dir := Str.strip (save_path_var st) in
  images st ≠ [] → target_dir ≠ "" →
  isdir target_dir (world st) = true →
  (∃ st1,
     (unselect_all;; save_selected fuel) st
     = (Returned (),
        log [Messagebox showwarning "Warning" "No images selected."] st1)
     ∧ st1 = (unselect_all st).2)
  ∧ (∀ names, listdir target_dir (world st) = inr names →
       List.length names + List.length (images st) ≤ fuel →
       ∃ st' t d,
         (select_all;; save_selected fuel) st = (Returned (), st')
         ∧ trace st' = trace st ++ t ++ [d]
         ∧ dialogs t = []
         ∧ (λ w, w.1.2) <$> written t = data <$> images st)
  ∧ (∀ e, listdir target_dir (world st) = inl e →
       (select_all;; save_selected fuel) st = (Raised e, (select_all st).2)
       ∧ trace (select_all st).2 = trace st
       ∧ Forall (λ img, selected_var img = true) (images (select_all st).2)).
Proof.
  intros target_dir Himages Hdir Hisdir. subst target_dir. split_and!.
  - eexists. split; [| reflexivity].
    unfold unselect_all, save_selected, mbind, M_bind, bind, gets, set_images.
    simpl. destruct (images st) as [|item l] eqn:Hl; [done |].
    apply nonempty_true in Hdir. simpl. rewrite Hdir, Hisdir. simpl.
    pose proof (filter_selected_none (item :: l)) as Hnone. simpl in Hnone.
    by rewrite Hnone.
  - intros names Hlist Hfuel.
    pose (st1 := (select_all st).2).
    destruct (save_selected_run fuel st1 names)
      as (st' & t & d & Hrun & Ht & Hdlg & Hall).
    + simpl. rewrite filter_selected_all. by destruct (images st).
    + done.
    + done.
    + done.
    + simpl. rewrite filter_selected_all, length_fmap. done.
    + exists st', t, d.
      assert (Hbind : (select_all;; save_selected fuel) st = save_selected fuel st1)
        by done.
      rewrite Hbind. split_and!; try done.
      simpl in Hall. rewrite filter_selected_all in Hall.
      clear -Hall. revert Hall. generalize (written t) (images st).
      intros ws l Hall. remember (set_selected true <$> l) as l' eqn:Hl'.
      revert l Hl'. induction Hall as [|w item ws l' [Hdata _] _ IH];
        intros [|item0 l] Hl'; simplify_eq/=; [done |].
      f_equal; [done | by apply IH].
  - intros e Hlist. split_and!.
    + unfold select_all, save_selected, mbind, M_bind, bind, gets, set_images.
      simpl. destruct (images st) as [|item l] eqn:Hl; [done |].
      apply nonempty_true in Hdir. simpl. rewrite Hdir, Hisdir. simpl.
      pose proof (filter_selected_all (item :: l)) as Hall. simpl in Hall.
      rewrite Hall. simpl. by rewrite Hlist.
    + done.
    + simpl. apply Forall_fmap, Forall_true. done.
Qed.

End registry.

(** * Configuration and start-up *)

Section configuration.

Context `{cenv : ConfigEnv}.

Implicit Types (app : App) (v : Json).

Lemma load_config_run app :
  _load_config app
  = (Returned (), {| state := state app;
                     config_data := loaded_config (world (state app)) |}).
Proof.
  unfold _load_config, loaded_config, mbind, MA_bind, bindA, on_state, gets.
  simpl. destruct (path_exists _ _); [| done]. by destruct (json_load _ _).
Qed.

Lemma build_ui_object app (m : gmap string Json) (cwd : string) :
  config_data app = JObj m →
  getcwd (world (state app)) = inr cwd →
  _build_ui app
  = (Returned (),
     {| state := {| images := images (state app); url_var := "";
                    save_path_var := default_save_path m cwd;
                    world := world (state app); trace := trace (state app) |};
        config_data := JObj m |}).
Proof.
  intros Hcfg Hcwd.
  unfold _build_ui, mbind, MA_bind, bindA, on_state, get_config. simpl.
  rewrite Hcfg. simpl. unfold mbind, M_bind, bind, gets. simpl. rewrite Hcwd. simpl.
  unfold default_save_path.
  by destruct (m !! CONFIG_KEY_SAVE_PATH) as [[] |].
Qed.

Lemma build_ui_not_object app :
  (∀ m, config_data app ≠ JObj m) →
  (_build_ui app).1
  = Raised ("'" +:+ type_name (config_data app)
            +:+ "' object has no attribute 'get'").
Proof.
  intros Hcfg.
  unfold _build_ui, mbind, MA_bind, bindA, on_state, get_config. simpl.
  destruct (config_data app) as [| | | | | |m]; try done. by destruct (Hcfg m).
Qed.

Lemma init_run app (m : gmap string Json) (cwd : string) :
  loaded_config (world (state app)) = JObj m →
  getcwd (world (state app)) = inr cwd →
  __init__ app
  = (Returned (),
     {| state := {| images := []; url_var := "";
                    save_path_var := default_save_path m cwd;
                    world := world (state app); trace := trace (state app) |};
        config_data := JObj m |}).
Proof.
  intros Hload Hcwd.
  unfold __init__, mbind, MA_bind, bindA. simpl.
  rewrite load_config_run. simpl. rewrite Hload.
  by erewrite build_ui_object; [| reflexivity | exact Hcwd].
Qed.


(** X11. Start-up with a config file that holds JSON other than an object
    (a list, a string, a number, [true], [null]): [_load_config] accepts the
    value, and [__init__] then ends with the [AttributeError] of the
    [.get] in [_build_ui]; the [try] of [_load_config] does not cover it. *)
Theorem init_with_non_object app v :
  path_exists CONFIG_FILE (world (state app)) = true →
  json_load CONFIG_FILE (world (state app)) = inr v →
  (∀ m, v ≠ JObj m) →
  (__init__ app).1
  = Raised ("'" +:+ type_name v +:+ "' object has no attribute 'get'").
Proof.
  intros Hexists Hload Hv.
  unfold __init__, mbind, MA_bind, bindA. simpl.
  rewrite load_config_run. simpl.
  unfold loaded_config. rewrite Hexists, Hload.
  match goal with |- context [_build_ui ?a] =>
    pose proof (build_ui_not_object a Hv) as Hui;
    destruct (_build_ui a) as [o app'] end.
  simpl in Hui. by rewrite Hui.
Qed.

Lemma save_config_run app :
  ∃ app',
    _save_config app = (Returned (), app')
    ∧ config_data app' = config_data app
    ∧ images (state app') = images (state app)
    ∧ url_var (state app') = url_var (state app)
    ∧ save_path_var (state app') = save_path_var (state app)
    ∧ world (state app')
      = (json_dump CONFIG_FILE (config_data app) (world (state app))).2
    ∧ trace (state app')
      = trace (state app)
        ++ match (json_dump CONFIG_FILE (config_data app) (world (state app))).1 with
           | Some e => [Print ("Error saving config: " +:+ e)]
           | None => []
           end.
Proof.
  unfold _save_config, mbind, MA_bind, bindA, on_state, get_config, gets. simpl.
  destruct (json_dump _ _ _) as [[e |] w']; simpl.
  - eexists. split; [reflexivity |]. by split_and!.
  - eexists. split; [reflexivity |]. simpl. rewrite app_nil_r. by split_and!.
Qed.

Lemma browse_save_path_chosen app (path : string) (w1 : World)
    (m : gmap string Json) :
  askdirectory (world (state app)) = (path, w1) →
  path ≠ "" →
  config_data app = JObj m →
  ∃ app',
    browse_save_path app = (Returned (), app')
    ∧ save_path_var (state app') = path
    ∧ config_data app' = JObj (<[CONFIG_KEY_SAVE_PATH := JStr path]> m)
    ∧ images (state app') = images (state app)
    ∧ url_var (state app') = url_var (state app)
    ∧ world (state app')
      = (json_dump CONFIG_FILE
           (JObj (<[CONFIG_KEY_SAVE_PATH := JStr path]> m)) w1).2
    ∧ trace (state app')
      = trace (state app)
        ++ match (json_dump CONFIG_FILE
                    (JObj (<[CONFIG_KEY_SAVE_PATH := JStr path]> m)) w1).1 with
           | Some e => [Print ("Error saving config: " +:+ e)]
           | None => []
           end.
Proof.
  intros Hask Hpath Hcfg. apply nonempty_true in Hpath.
  unfold browse_save_path, mbind, MA_bind, bindA, on_state, gets, get_config.
  simpl. rewrite Hask. simpl. rewrite Hpath, Hcfg. simpl.
  match goal with |- context [_save_config ?a] =>
    destruct (save_config_run a)
      as (app' & -> & Hc & Hi & Hu & Hs & Hw & Ht) end.
  simpl in *. exists app'. by split_and!.
Qed.

(** X12. Browsing for a save folder.  When the dialog is cancelled nothing
    changes: the save path and the configuration stay, and the config file
    is not written.  When a folder is chosen and [config_data] is an object,
    the command returns normally: the save path is the folder, the object
    holds it under [default_save_path] with its other keys untouched, the
    registry and the URL field are as before, and a config write that fails
    only prints one line. *)
Theorem browse_save_path_effect app (path : string) (w1 : World) :
  askdirectory (world (state app)) = (path, w1) →
  (path = "" →
   browse_save_path app
   = (Returned (),
      {| state := {| images := images (state app); url_var := url_var (state app);
                     save_path_var := save_path_var (state app);
                     world := w1; trace := trace (state app) |};
         config_data := config_data app |}))
  ∧ (path ≠ "" → ∀ m, config_data app = JObj m →
     ∃ app',
       browse_save_path app = (Returned (), app')
       ∧ save_path_var (state app') = path
       ∧ config_data app' = JObj (<[CONFIG_KEY_SAVE_PATH := JStr path]> m)
       ∧ (∀ key, key ≠ CONFIG_KEY_SAVE_PATH →
            (<[CONFIG_KEY_SAVE_PATH := JStr path]> m) !! key = m !! key)
       ∧ default_save_path (<[CONFIG_KEY_SAVE_PATH := JStr path]> m) "" = path
       ∧ images (state app') = images (state app)
       ∧ url_var (state app') = url_var (state app)
       ∧ world (state app')
         = (json_dump CONFIG_FILE
              (JObj (<[CONFIG_KEY_SAVE_PATH := JStr path]> m)) w1).2
       ∧ trace (state app')
         = trace (state app)
           ++ match (json_dump CONFIG_FILE
                       (JObj (<[CONFIG_KEY_SAVE_PATH := JStr path]> m)) w1).1 with
              | Some e => [Print ("Error saving config: " +:+ e)]
              | None => []
              end).
Proof.
  intros Hask. split.
  - intros ->.
    unfold browse_save_path, mbind, MA_bind, bindA, on_state, gets. simpl.
    by rewrite Hask.
  - intros Hpath m Hcfg.
    destruct (browse_save_path_chosen app path w1 m Hask Hpath Hcfg)
      as (app' & Hrun & Hs & Hc & Hi & Hu & Hw & Ht).
    exists app'. split_and!; try done.
    + intros key Hkey. by rewrite lookup_insert_ne.
    + unfold default_save_path. by rewrite lookup_insert_eq.
Qed.

(** X13. A chosen folder survives a restart: when the config write
    succeeds and the file then reads back as it was written, browsing and
    then starting up again gives a save path equal to the chosen folder. *)
Theorem browse_then_restart app (m : gmap string Json) (path cwd : string)
    (w1 w2 : World) :
  config_data app = JObj m →
  askdirectory (world (state app)) = (path, w1) →
  path ≠ "" →
  json_dump CONFIG_FILE (JObj (<[CONFIG_KEY_SAVE_PATH := JStr path]> m)) w1
  = (None, w2) →
  path_exists CONFIG_FILE w2 = true →
  json_load CONFIG_FILE w2 = inr (JObj (<[CONFIG_KEY_SAVE_PATH := JStr path]> m)) →
  getcwd w2 = inr cwd →
  ∃ app',
    (browse_save_path;; __init__) app = (Returned (), app')
    ∧ save_path_var (state app') = path
    ∧ config_data app' = JObj (<[CONFIG_KEY_SAVE_PATH := JStr path]> m).
Proof.
  intros Hcfg Hask Hpath Hdump Hexists Hload Hcwd.
  destruct (browse_save_path_chosen app path w1 m Hask Hpath Hcfg)
    as (app1 & Hrun & _ & _ & _ & _ & Hw & _).
  rewrite Hdump in Hw. simpl in Hw.
  eexists. split.
  - unfold mbind, MA_bind, bindA. rewrite Hrun.
    apply (init_run app1 (<[CONFIG_KEY_SAVE_PATH := JStr path]> m) cwd).
    + unfold loaded_config. by rewrite Hw, Hexists, Hload.
    + by rewrite Hw.
  - simpl. split; [| done]. unfold default_save_path. by rewrite lookup_insert_eq.
Qed.

End configuration.

(** ** A scan starts from an empty registry *)

Section fresh_scan.

Context `{env : Env}.

(** X15. The outcome of a scan of a non-blank URL does not depend on what
    the registry held before: replacing the registry by any other list of
    items before the scan gives the same result and the same final state,
    so scanning is the same as clearing silently and then scanning. *)
Theorem scan_ignores_old_registry (l : list ImageItem) (st : State) :
  Str.strip (url_var st) ≠ "" →
  scan_images (set_images l st).2 = scan_images st
  ∧ (clear_images true;; scan_images) st = scan_images st.
Proof.
  intros Hurl. apply nonempty_true in Hurl.
  assert (Hany : ∀ l', scan_images (set_images l' st).2 = scan_images st).
  { intros l'. unfold scan_images, mbind, M_bind, bind, gets. simpl.
    rewrite Hurl. simpl.
    by destruct (Str.startswith "http://" _ || Str.startswith "https://" _). }
  split; [apply Hany |].
  rewrite <- (Hany []). unfold mbind, M_bind, bind, clear_images. reflexivity.
Qed.

End fresh_scan.

(** ** The further properties at concrete inputs *)

Lemma scan_ignores_old_registry_witness :
  let st := example_state [] "x.test/dir/" in
  scan_images
    (set_images [example_item "http://old.test/o.png" "o.png" false] st).2
  = scan_images st.
Proof.
  assert (Hurl : Str.strip (url_var (example_state [] "x.test/dir/")) ≠ "")
    by (vm_compute; discriminate).
  exact (proj1 (scan_ignores_old_registry (env := example_env)
                  [example_item "http://old.test/o.png" "o.png" false]
                  (example_state [] "x.test/dir/") Hurl)).
Defined.

Lemma scan_names_well_formed_witness :
  let st := example_state [] "x.test/dir/" in
  Str.strip (url_var st) ≠ ""
  ∧ Forall (λ item, well_named (filename item)) (images (scan_images st).2).
Proof.
  split; [vm_compute; discriminate |].
  apply (scan_names_well_formed (env := example_env)). vm_compute. discriminate.
Defined.


Lemma scan_reports_registry_witness :
  let st := example_state [] "http://x.test/dir/" in
  ∃ t d,
    trace (scan_images st).2 = trace st ++ t
    ∧ dialogs t = [d]
    ∧ Forall (λ item, url item ∈ requested t ∧ selected_var item = true)
        (images (scan_images st).2)
    ∧ (images (scan_images st).2 ≠ [] →
       d = (showinfo, "Info",
            "Found and loaded "
            +:+ pretty (List.length (images (scan_images st).2))
            +:+ " images into RAM (cache).")).
Proof.
  apply (scan_reports_registry (env := example_env)
           (example_state [] "http://x.test/dir/")).
  - vm_compute. discriminate.
  - assert (Hfst : (scan_images (example_state [] "http://x.test/dir/")).1
                   = Returned ()) by (vm_compute; reflexivity).
    destruct (scan_images (example_state [] "http://x.test/dir/")) as [o st'].
    simpl in *. by rewrite Hfst.
Defined.

Lemma save_selected_paths_witness :
  let st := example_state [example_item "http://x.test/a.png" "a.jpg" true;
                           example_item "http://x.test/b" "b.jpg" false] "" in
  ∃ st' t d,
    save_selected 4 st = (Returned (), st')
    ∧ trace st' = trace st ++ t ++ [d]
    ∧ Forall2 (λ w item,
                 w.1.2 = data item
                 ∧ ∃ j, let name := candidate_name (filename item) j in
                        w.1.1 = os_path.join "/out" name
                        ∧ (name ∉ ["a.jpg"])
                        ∧ (Str.contains "/" (filename item) = false →
                           Str.contains "/" name = false
                           ∧ w.1.1 = "/out" +:+ "/" +:+ name))
        (written t) [example_item "http://x.test/a.png" "a.jpg" true].
Proof.
  apply (save_selected_paths (env := example_env) 4
           (example_state [example_item "http://x.test/a.png" "a.jpg" true;
                           example_item "http://x.test/b" "b.jpg" false] "")
           ["a.jpg"]).
  - simpl. discriminate.
  - simpl. discriminate.
  - reflexivity.
  - reflexivity.
  - simpl. lia.
Defined.

Lemma selection_composes_witness :
  let st := example_state [example_item "http://x.test/a.png" "a.jpg" true;
                           example_item "http://x.test/b" "b.jpg" false] "" in
  world (select_all st).2 = world st ∧ trace (select_all st).2 = trace st
  ∧ url_var (select_all st).2 = url_var st
  ∧ save_path_var (select_all st).2 = save_path_var st
  ∧ url <$> images (select_all st).2 = url <$> images st
  ∧ data <$> images (select_all st).2 = data <$> images st
  ∧ filename <$> images (select_all st).2 = filename <$> images st.
Proof.
  apply (selection_composes (env := example_env)). by left.
Defined.

Lemma save_after_selection_witness :
  (let st := example_state [example_item "http://x.test/a.png" "a.jpg" true;
                            example_item "http://x.test/b" "b.jpg" false] "" in
   ∃ st' t d,
     (select_all;; save_selected 4) st = (Returned (), st')
     ∧ trace st' = trace st ++ t ++ [d]
     ∧ dialogs t = []
     ∧ (λ w, w.1.2) <$> written t = [png; png])
  ∧ (select_all;; save_selected 4) unlistable_state
    = (Raised "Permission denied", (select_all unlistable_state).2).
Proof.
  split.
  - apply (proj1 (proj2 (save_after_selection (env := example_env) 4
                    (example_state [example_item "http://x.test/a.png" "a.jpg" true;
                                    example_item "http://x.test/b" "b.jpg" false] "")
                    ltac:(simpl; discriminate) ltac:(simpl; discriminate) eq_refl)))
      with (names := ["a.jpg"]).
    + reflexivity.
    + simpl. lia.
  - exact (proj1 (proj2 (proj2 (save_after_selection (env := unlistable_env) 4
                           unlistable_state
                           ltac:(simpl; discriminate) ltac:(simpl; discriminate)
                           eq_refl))
                    "Permission denied" eq_refl)).
Defined.

Lemma save_selected_listing_error_witness :
  save_selected 4 unlistable_state = (Raised "Permission denied", unlistable_state).
Proof.
  apply (save_selected_listing_error (env := unlistable_env) 4 unlistable_state).
  - simpl. discriminate.
  - simpl. discriminate.
  - reflexivity.
  - reflexivity.
Defined.


Lemma init_with_non_object_witness :
  (__init__ (cenv := config_env) (config_app (Some (inr (JArr []))) "" JNull)).1
  = Raised "'list' object has no attribute 'get'".
Proof.
  apply (init_with_non_object (cenv := config_env)
           (config_app (Some (inr (JArr []))) "" JNull) (JArr [])).
  - reflexivity.
  - reflexivity.
  - discriminate.
Defined.

Lemma browse_save_path_effect_witness :
  let app := config_app None "/pics" (JObj {[ "theme" := JStr "dark" ]}) in
  ∃ app',
    browse_save_path (cenv := config_env) app = (Returned (), app')
    ∧ save_path_var (state app') = "/pics"
    ∧ config_data app'
      = JObj (<[CONFIG_KEY_SAVE_PATH := JStr "/pics"]> {[ "theme" := JStr "dark" ]}).
Proof.
  destruct (proj2 (browse_save_path_effect (cenv := config_env)
                     (config_app None "/pics" (JObj {[ "theme" := JStr "dark" ]}))
                     "/pics" _ eq_refl))
    with (m := ({[ "theme" := JStr "dark" ]} : gmap string Json))
    as (app' & Hrun & Hs & Hc & _).
  - discriminate.
  - reflexivity.
  - by exists app'.
Defined.

Lemma browse_then_restart_witness :
  let app := config_app None "/pics" (JObj ∅) in
  ∃ app',
    bindA (browse_save_path (cenv := config_env))
      (λ _, __init__ (cenv := config_env)) app
    = (Returned (), app')
    ∧ save_path_var (state app') = "/pics"
    ∧ config_data app' = JObj (<[CONFIG_KEY_SAVE_PATH := JStr "/pics"]> ∅).
Proof.
  assert (Hpick : "/pics" ≠ "") by discriminate.
  exact (browse_then_restart (cenv := config_env)
           (config_app None "/pics" (JObj ∅)) ∅ "/pics" "/home/user"
           ({| cw_file := None; cw_readonly := false; cw_cwd := "/home/user";
               cw_pick := "/pics" |} : @World config_base_env)
           ({| cw_file := Some (inr (JObj (<[CONFIG_KEY_SAVE_PATH := JStr "/pics"]> ∅)));
               cw_readonly := false; cw_cwd := "/home/user";
               cw_pick := "/pics" |} : @World config_base_env)
           eq_refl eq_refl Hpick eq_refl eq_refl eq_refl eq_refl).
Defined.
